(** * pst_to_markdown: a shallow embedding and its verified properties

    The development follows [src/pst_to_markdown.py] function by function.
    Python [str] values are modelled as [string] (characters are code points
    below 256; every character the program inspects lies in that range),
    Python [int] values as [Z], [bytes] as [list Byte.byte], and an exception
    as the [Exc] branch of [result], carrying the text that [str(e)] yields. *)

From Stdlib Require Import ZArith Ascii String Lia.
From stdpp Require Import base tactics option list strings gmap pretty.

Local Open Scope Z_scope.

(** ** Python [str] operations used by the program *)

Module PyStr.

Definition nl : string := String (ascii_of_nat 10) EmptyString.
Definition dquote : ascii := ascii_of_nat 34.

(** [len(s)] *)
Definition len (s : string) : Z := Z.of_nat (String.length s).

(** truthiness of a [str]: the empty string is falsy *)
Definition truthy (s : string) : bool :=
  match s with EmptyString => false | String _ _ => true end.

(** [c in s], for a one-character [c] *)
Fixpoint char_in (c : ascii) (s : string) : bool :=
  match s with
  | EmptyString => false
  | String d r => Ascii.eqb c d || char_in c r
  end.

(** [str.isspace] on one character, for code points below 256 *)
Definition isspace (c : ascii) : bool :=
  let n := N_of_ascii c in
  ((9 <=? n) && (n <=? 13) || (28 <=? n) && (n <=? 32) || (n =? 133) || (n =? 160))%N.

(** removal of the leading characters that satisfy [p] *)
Fixpoint lstrip_if (p : ascii -> bool) (s : string) : string :=
  match s with
  | EmptyString => EmptyString
  | String c r => if p c then lstrip_if p r else s
  end.

(** removal of the trailing characters that satisfy [p] *)
Fixpoint rstrip_if (p : ascii -> bool) (s : string) : string :=
  match s with
  | EmptyString => EmptyString
  | String c r =>
      match rstrip_if p r with
      | EmptyString => if p c then EmptyString else String c EmptyString
      | r' => String c r'
      end
  end.

(** [s.rstrip(chars)] and [s.strip(chars)] *)
Definition rstrip (chars s : string) : string :=
  rstrip_if (fun c => char_in c chars) s.
Definition strip (chars s : string) : string :=
  rstrip chars (lstrip_if (fun c => char_in c chars) s).

(** [s.strip()]: white space removed at both ends *)
Definition strip_ws (s : string) : string := rstrip_if isspace (lstrip_if isspace s).

Fixpoint take (n : nat) (s : string) : string :=
  match n, s with
  | S n', String c r => String c (take n' r)
  | _, _ => EmptyString
  end.

(** [s[:stop]]; a negative [stop] counts from the end, clamped at 0 *)
Definition slice_to (s : string) (stop : Z) : string :=
  if 0 <=? stop then take (Z.to_nat stop) s
  else take (String.length s - Z.to_nat (- stop)) s.

(** the longest prefix of [s] whose characters satisfy [p], and what follows *)
Fixpoint span (p : ascii -> bool) (s : string) : string * string :=
  match s with
  | EmptyString => (EmptyString, EmptyString)
  | String c r =>
      if p c then (String c (span p r).1, (span p r).2) else (EmptyString, s)
  end.

(** [s.split(sep)[0]] for a one-character separator *)
Definition split_first (sep : ascii) (s : string) : string :=
  (span (fun c => negb (Ascii.eqb c sep)) s).1.

(** [sep.join(l)] *)
Fixpoint join (sep : string) (l : list string) : string :=
  match l with
  | [] => EmptyString
  | [x] => x
  | x :: r => x +:+ sep +:+ join sep r
  end.

(** [re.sub(cls, repl, s)] for a one-character class [cls] and a
    one-character replacement *)
Fixpoint re_sub_class (cls : ascii -> bool) (repl : ascii) (s : string) : string :=
  match s with
  | EmptyString => EmptyString
  | String c r => String (if cls c then repl else c) (re_sub_class cls repl r)
  end.

Definition starts_with_char (c : ascii) (s : string) : bool :=
  match s with
  | EmptyString => false
  | String d _ => Ascii.eqb d c
  end.

(** [re.sub(c+, c, s)]: every maximal run of [c] becomes a single [c] *)
Fixpoint re_sub_runs (c : ascii) (s : string) : string :=
  match s with
  | EmptyString => EmptyString
  | String d r =>
      if Ascii.eqb d c && starts_with_char c r then re_sub_runs c r
      else String d (re_sub_runs c r)
  end.

(** every character of [s] satisfies [p] *)
Fixpoint all_chars (p : ascii -> bool) (s : string) : bool :=
  match s with
  | EmptyString => true
  | String c r => p c && all_chars p r
  end.

(** [needle in s] for strings *)
Fixpoint is_prefix (needle s : string) : bool :=
  match needle, s with
  | EmptyString, _ => true
  | String a n', String b s' => Ascii.eqb a b && is_prefix n' s'
  | String _ _, EmptyString => false
  end.
Fixpoint contains (needle s : string) : bool :=
  is_prefix needle s ||
  match s with
  | EmptyString => false
  | String _ r => contains needle r
  end.

(** [x or default] where [x] is a [str] or [None] *)
Definition or_else (x : option string) (default : string) : string :=
  match x with
  | Some s => if truthy s then s else default
  | None => default
  end.

End PyStr.

Import PyStr.

(** ** Exceptions *)

Inductive result (A : Type) : Type :=
| Ok (a : A)
| Exc (msg : string).
Arguments Ok {A} a.
Arguments Exc {A} msg.

Definition bind {A B : Type} (r : result A) (k : A -> result B) : result B :=
  match r with
  | Ok a => k a
  | Exc e => Exc e
  end.

Notation "'let*' x ':=' r 'in' k" := (bind r (fun x => k))
  (at level 10, x name, r at level 100, k at level 200).

(** [try: body except Exception as e: handler(e)] *)
Definition try_except {A : Type} (body : result A) (handler : string -> result A) : result A :=
  match body with
  | Ok a => Ok a
  | Exc e => handler e
  end.

(** [try: x = body except Exception: pass], with [x] preset to [default] *)
Definition best_effort {A : Type} (default : A) (body : result A) : A :=
  match body with
  | Ok a => a
  | Exc _ => default
  end.

(** ** [sanitize_filename] (lines 38-46) *)

(** the character class of the pattern [invalid_chars]: the control
    characters U+0000..U+001F and nine punctuation marks *)
Definition invalid_chars (c : ascii) : bool :=
  (N_of_ascii c <=? 31)%N || char_in c ("<>:" +:+ String dquote "/\|?*").

Definition sanitize_filename (name : string) (max_length : Z) : string :=
  let sanitized := re_sub_class invalid_chars "_" name in
  let sanitized := re_sub_runs "_" sanitized in
  let sanitized := strip ". _" sanitized in
  let sanitized :=
    if len sanitized >? max_length
    then rstrip ". _" (slice_to sanitized max_length)
    else sanitized in
  if truthy sanitized then sanitized else "unnamed".

(** the default of the keyword argument [max_length] *)
Definition default_max_length : Z := 100.

(** ** [extract_sender_name] (lines 49-66) *)

(** [$] matches at the end of the string and before a final newline *)
Definition at_end (s : string) : bool :=
  match s with
  | EmptyString => true
  | String c EmptyString => Ascii.eqb c (ascii_of_nat 10)
  | _ => false
  end.

Definition not_char (d : ascii) (c : ascii) : bool := negb (Ascii.eqb c d).

(** [re.match] of the pattern [^([^<]+)\s*<[^>]+>$], returning group 1.
    The greedy [[^<]+] stops at the first [<] or at the end; giving back
    characters to the white-space star cannot help, since the next pattern
    character must be that same [<].  Likewise [[^>]+] stops exactly at
    the first [>]. *)
Definition re_match_display_name (s : string) : option string :=
  let '(name, rest) := span (not_char "<") s in
  if truthy name then
    match rest with
    | String c rest1 =>
        if Ascii.eqb c "<" then
          let '(addr, rest2) := span (not_char ">") rest1 in
          if truthy addr then
            match rest2 with
            | String d tail =>
                if Ascii.eqb d ">" && at_end tail then Some name else None
            | EmptyString => None
            end
          else None
        else None
    | EmptyString => None
    end
  else None.

Definition extract_sender_name (sender : option string) : string :=
  match sender with
  | None => "unknown"
  | Some sender =>
      if negb (truthy sender) then "unknown"
      else
        match re_match_display_name (strip_ws sender) with
        | Some group1 => strip_ws group1
        | None =>
            if char_in "@" sender && negb (char_in "<" sender)
            then split_first "@" sender
            else strip_ws sender
        end
  end.

(** ** The mail client's objects, as the program reads them

    Every attribute access on an automation object can raise; an attribute
    is therefore a [result].  A text attribute holds a [str] or [None]. *)

Record datetime := { strftime : string -> result string }.

(** what [mail_item.ReceivedTime] can hold: [None], an object with a
    [strftime] method, or any other object, of which only [str(...)] is used *)
Inductive time_value :=
| TimeNone
| TimeObject (t : datetime)
| TimeOther (str : result string).

Record Recipient := {
  Name : result (option string);
  Address : result (option string)
}.

(** a collection: reading [Count] can raise, and so can each [Item(i)] *)
Definition collection (A : Type) : Type := result (list (result A)).

Record Attachment := {
  FileName : result (option string);
  (** [att.SaveAsFile(temp_path)] followed by reading the file back *)
  SaveAsFile_read : result (list Byte.byte);
  (** the [finally] block: [temp_path.exists()] and [temp_path.unlink()] *)
  unlink_temp : result unit
}.

Record MailItem := {
  Class : result Z;
  Subject : result (option string);
  SenderName : result (option string);
  SenderEmailAddress : result (option string);
  ReceivedTime : result time_value;
  Recipients : result (option (collection Recipient));
  CC : result (option string);
  HTMLBody : result (option string);
  Body : result (option string);
  Attachments : result (collection Attachment)
}.

#[warnings="-register-all"]
Inductive Folder :=
| mkFolder (Items : collection MailItem) (Folders : collection Folder).

Definition Items (f : Folder) : collection MailItem :=
  match f with mkFolder items _ => items end.
Definition Folders (f : Folder) : collection Folder :=
  match f with mkFolder _ folders => folders end.

(** a path, as its components below the root *)
Abbreviation Path := (list string).

(** a top-level folder of the session: [folder.Store.FilePath] and the folder *)
Record TopFolder := {
  Store_FilePath : result Path;
  root_folder : Folder
}.

(** the MAPI namespace: [AddStore(path)] raises or attaches the archive,
    after which [namespace.Folders] is the collection it returns here *)
Record Namespace := {
  AddStore : Path -> result (collection TopFolder);
  RemoveStore : result unit
}.

(** ** The external functions the program calls *)

Record Env := {
  (** [win32com.client.Dispatch(...)] followed by [GetNamespace("MAPI")] *)
  Dispatch_GetNamespace : result Namespace;
  (** [markdownify(html, heading_style="ATX", bullets="-")] *)
  md : string -> result string;
  (** [datetime.now()] *)
  now : datetime;
  (** [datetime.fromisoformat] *)
  fromisoformat : string -> result datetime;
  (** the operating system refusing to create or write a path (access
      rights, a full disk, a reserved or over-long name), with its message *)
  os_refuses : Path -> option string;
  (** the console refusing a progress-bar message (an encoding error, a
      closed stream), with its message *)
  console_rejects : string -> option string
}.

(** ** [format_email_date] (lines 83-98) *)

Definition format_pair (t : datetime) : result (string * string) :=
  let* d := strftime t "%Y-%m-%d" in
  let* dt := strftime t "%Y-%m-%d %H:%M:%S" in
  Ok (d, dt).

Definition format_email_date (E : Env) (received_time : time_value)
  : result (string * string) :=
  match received_time with
  | TimeNone => format_pair (now E)
  | TimeObject t =>
      try_except (format_pair t) (fun _ => Ok ("unknown-date", "Unknown"))
  | TimeOther str =>
      try_except
        (let* text := str in
         let* dt := fromisoformat E text in
         format_pair dt)
        (fun _ => Ok ("unknown-date", "Unknown"))
  end.

(** ** [html_to_markdown] (lines 101-108) *)

Definition html_to_markdown (E : Env) (html_body plain_body : string) : string :=
  if truthy html_body then
    match md E html_body with
    | Ok text => text
    | Exc _ => plain_body
    end
  else plain_body.

(** ** [format_recipients] (lines 111-128) *)

Definition format_recipient (slot : result Recipient) : result string :=
  let* recip := slot in
  let* n := Name recip in
  let* name :=
    match n with
    | Some s => if truthy s then Ok s
                else let* a := Address recip in Ok (or_else a "Unknown")
    | None => let* a := Address recip in Ok (or_else a "Unknown")
    end in
  let* a := Address recip in
  let address := or_else a EmptyString in
  if truthy address && negb (String.eqb address name)
  then Ok (name +:+ " <" +:+ address +:+ ">")
  else Ok name.

Fixpoint format_recipient_list (slots : list (result Recipient)) : result (list string) :=
  match slots with
  | [] => Ok []
  | slot :: rest =>
      let* x := format_recipient slot in
      let* xs := format_recipient_list rest in
      Ok (x :: xs)
  end.

Definition format_recipients (recipients : option (collection Recipient)) : string :=
  match recipients with
  | None => EmptyString
  | Some coll =>
      best_effort EmptyString
        (let* slots := coll in
         let* recipient_list := format_recipient_list slots in
         Ok (join ", " recipient_list))
  end.

(** ** [create_email_markdown] (lines 131-210) *)

(** the two lists the attachment loop appends to *)
Record att_lists := {
  attachments : list (string * list Byte.byte);
  attachment_links : list string
}.

(** one iteration of the loop of lines 171-184, on what [Attachments.Item(i)]
    gave: the lists as the iteration leaves them, and whether it raised.
    The two [append]s stand before the [finally] block, so a failure of
    the clean-up alone leaves the attachment in the lists. *)
Definition attachment_step (i : Z) (slot : result Attachment) (acc : att_lists)
  : att_lists * result unit :=
  match slot with
  | Exc e => (acc, Exc e)
  | Ok att =>
      match FileName att with
      | Exc e => (acc, Exc e)
      | Ok fn =>
          let att_filename :=
            sanitize_filename (or_else fn ("attachment_" +:+ pretty i))
                              default_max_length in
          match SaveAsFile_read att with
          | Ok att_data =>
              let acc' :=
                {| attachments := attachments acc ++ [(att_filename, att_data)];
                   attachment_links :=
                     attachment_links acc ++
                     ["- [" +:+ att_filename +:+ "](" +:+ att_filename +:+ ")"] |} in
              (acc', unlink_temp att)
          | Exc e =>
              (acc, match unlink_temp att with Ok _ => Exc e | Exc e' => Exc e' end)
          end
      end
  end.

(** [for i in range(i, Count + 1)]: the loop stops at the first iteration
    that raises *)
Fixpoint attachment_loop (i : Z) (slots : list (result Attachment)) (acc : att_lists)
  : att_lists * result unit :=
  match slots with
  | [] => (acc, Ok tt)
  | slot :: rest =>
      match attachment_step i slot acc with
      | (acc', Ok _) => attachment_loop (i + 1) rest acc'
      | (acc', Exc e) => (acc', Exc e)
      end
  end.

(** lines 167-186: the lists after the guarded loop, and what the loop
    raised into [except Exception: pass] *)
Definition extract_attachments (atts : result (collection Attachment))
  : att_lists * result unit :=
  let empty := {| attachments := []; attachment_links := [] |} in
  match atts with
  | Exc e => (empty, Exc e)
  | Ok (Exc e) => (empty, Exc e)
  | Ok (Ok slots) => attachment_loop 1 slots empty
  end.

(** the f-string of lines 188-197 *)
Definition header (subject sender to_recipients cc_recipients date_display : string)
  : string :=
  "# " +:+ subject +:+ nl +:+
  nl +:+
  "| Field | Value |" +:+ nl +:+
  "|-------|-------|" +:+ nl +:+
  "| **From** | " +:+ sender +:+ " |" +:+ nl +:+
  "| **To** | " +:+ to_recipients +:+ " |" +:+ nl +:+
  "| **CC** | " +:+ cc_recipients +:+ " |" +:+ nl +:+
  "| **Date** | " +:+ date_display +:+ " |" +:+ nl +:+
  nl.

Definition RenderedEmail : Type := string * string * list (string * list Byte.byte).

(** the body of the outer [try] (lines 138-207) *)
Definition render (E : Env) (mail_item : MailItem) : result RenderedEmail :=
  let* subj := Subject mail_item in
  let subject := or_else subj "No Subject" in
  let* sn := SenderName mail_item in
  let* sender :=
    match sn with
    | Some s => if truthy s then Ok s
                else let* a := SenderEmailAddress mail_item in Ok (or_else a "Unknown")
    | None => let* a := SenderEmailAddress mail_item in Ok (or_else a "Unknown")
    end in
  let* received_time := ReceivedTime mail_item in
  let* recipients := Recipients mail_item in
  let to_recipients := format_recipients recipients in
  let cc_recipients :=
    best_effort EmptyString (let* cc := CC mail_item in Ok (or_else cc EmptyString)) in
  let html_body :=
    best_effort EmptyString (let* h := HTMLBody mail_item in Ok (or_else h EmptyString)) in
  let plain_body :=
    best_effort EmptyString (let* b := Body mail_item in Ok (or_else b EmptyString)) in
  let* dates := format_email_date E received_time in
  let date_filename := dates.1 in
  let date_display := dates.2 in
  let sender_name := extract_sender_name (Some sender) in
  let filename_base :=
    sanitize_filename (date_filename +:+ "_" +:+ sender_name +:+ "_" +:+ subject)
                      default_max_length in
  let body_md := html_to_markdown E html_body plain_body in
  let lists := (extract_attachments (Attachments mail_item)).1 in
  let md_content := header subject sender to_recipients cc_recipients date_display in
  let md_content :=
    match attachment_links lists with
    | [] => md_content
    | links => md_content +:+ "## Attachments" +:+ nl +:+ nl +:+
               join nl links +:+ nl +:+ nl
    end in
  let md_content := md_content +:+ "## Content" +:+ nl +:+ nl in
  let md_content := md_content +:+ body_md in
  Ok (filename_base, md_content, attachments lists).

Definition error_document (e : string) : string :=
  "# Error Processing Email" +:+ nl +:+ nl +:+ "Error: " +:+ e.

Definition create_email_markdown (E : Env) (mail_item : MailItem) : result RenderedEmail :=
  try_except (render E mail_item)
             (fun e => Ok ("error_email", error_document e, [])).

(** ** The file system and the progress bar *)

Inductive node :=
| Dir
| TextFile (text : string)
| BinFile (data : list Byte.byte).

(** [base / name].  Every name the program joins to a path is an output of
    [sanitize_filename], possibly followed by a counter and an extension: it
    holds no separator and is neither empty, [.] nor [..], so it is one
    further component. *)
Definition path_join (base : Path) (name : string) : Path := base ++ [name].
Infix "</>" := path_join (at level 45, left associativity).

(** [path.parent] and [path.name] *)
Definition parent (p : Path) : Path := removelast p.
Definition name_of (p : Path) : string := List.last p EmptyString.

(** [str(path)] *)
Definition path_str (p : Path) : string := "/" +:+ join "/" p.

(** the node at a path; the root is a directory *)
Definition node_at (fs : gmap Path node) (p : Path) : option node :=
  match p with
  | [] => Some Dir
  | _ => fs !! p
  end.

(** [path.exists()] *)
Definition path_exists (fs : gmap Path node) (p : Path) : bool :=
  bool_decide (is_Some (node_at fs p)).

Record World := {
  fs : gmap Path node;
  (** the progress bar: its total and its position *)
  pbar_total : Z;
  pbar_n : Z;
  (** the lines written through the progress bar *)
  console : list string
}.

Definition set_fs (w : World) (fs' : gmap Path node) : World :=
  {| fs := fs'; pbar_total := pbar_total w; pbar_n := pbar_n w; console := console w |}.

(** a computation that reads and changes the world and can raise; what it
    changed before raising stays changed *)
Definition M (A : Type) : Type := World -> result A * World.

Definition ret {A : Type} (a : A) : M A := fun w => (Ok a, w).
Definition raise {A : Type} (e : string) : M A := fun w => (Exc e, w).
Definition lift {A : Type} (r : result A) : M A := fun w => (r, w).
Definition bindM {A B : Type} (m : M A) (k : A -> M B) : M B :=
  fun w =>
    match m w with
    | (Ok a, w') => k a w'
    | (Exc e, w') => (Exc e, w')
    end.

Notation "'let!' x ':=' m 'in' k" := (bindM m (fun x => k))
  (at level 10, x name, m at level 100, k at level 200).

(** [try: body except Exception as e: handler(e)] *)
Definition try_exceptM {A : Type} (body : M A) (handler : string -> M A) : M A :=
  fun w =>
    match body w with
    | (Ok a, w') => (Ok a, w')
    | (Exc e, w') => handler e w'
    end.

(** [path.write_text(...)] and [path.write_bytes(...)]: the path must not be
    a directory and its parent must be one *)
Definition write_file (E : Env) (p : Path) (content : node) : M unit :=
  fun w =>
    match os_refuses E p with
    | Some msg => (Exc msg, w)
    | None =>
        match node_at (fs w) p with
        | Some Dir => (Exc "Is a directory", w)
        | _ =>
            match node_at (fs w) (parent p) with
            | Some Dir => (Ok tt, set_fs w (<[p := content]> (fs w)))
            | Some _ => (Exc "Not a directory", w)
            | None => (Exc "No such file or directory", w)
            end
        end
    end.

Definition write_text (E : Env) (p : Path) (text : string) : M unit :=
  write_file E p (TextFile text).
Definition write_bytes (E : Env) (p : Path) (data : list Byte.byte) : M unit :=
  write_file E p (BinFile data).

(** [path.mkdir(parents=True, exist_ok=True)], from the root downwards:
    [done] exists as a directory, [todo] are the components still to visit *)
Fixpoint mkdir_from (E : Env) (done : Path) (todo : list string) (w : World)
  : result unit * World :=
  match todo with
  | [] => (Ok tt, w)
  | name :: rest =>
      let p := done </> name in
      match fs w !! p with
      | Some Dir => mkdir_from E p rest w
      | Some _ =>
          (Exc (match rest with [] => "File exists" | _ => "Not a directory" end), w)
      | None =>
          match os_refuses E p with
          | Some msg => (Exc msg, w)
          | None => mkdir_from E p rest (set_fs w (<[p := Dir]> (fs w)))
          end
      end
  end.

Definition mkdir (E : Env) (p : Path) : M unit := mkdir_from E [] p.

(** [pbar.update(n)] and [pbar.write(msg)] *)
Definition pbar_update (n : Z) : M unit :=
  fun w =>
    (Ok tt, {| fs := fs w; pbar_total := pbar_total w;
               pbar_n := pbar_n w + n; console := console w |}).

Definition pbar_write (E : Env) (msg : string) : M unit :=
  fun w =>
    match console_rejects E msg with
    | Some e => (Exc e, w)
    | None =>
        (Ok tt, {| fs := fs w; pbar_total := pbar_total w;
                   pbar_n := pbar_n w; console := console w ++ [msg] |})
    end.

(** [tqdm(total=...)] *)
Definition tqdm (total : Z) : M unit :=
  fun w =>
    (Ok tt, {| fs := fs w; pbar_total := total; pbar_n := 0; console := console w |}).

(** ** [generate_unique_filename] (lines 69-81) *)

(** the path probed with suffix [counter] *)
Definition suffixed (base_path : Path) (filename extension : string) (counter : Z) : Path :=
  base_path </> (filename +:+ "_" +:+ pretty counter +:+ extension).

(** the loop [while True] of lines 76-80, run for at most [fuel] probes *)
Fixpoint probe (fuel : nat) (fs : gmap Path node) (base_path : Path)
    (filename extension : string) (counter : Z) : option Path :=
  match fuel with
  | O => None
  | S fuel' =>
      let new_path := suffixed base_path filename extension counter in
      if negb (path_exists fs new_path) then Some new_path
      else probe fuel' fs base_path filename extension (counter + 1)
  end.

Definition generate_unique_filename (fuel : nat) (fs : gmap Path node)
    (base_path : Path) (filename extension : string) : option Path :=
  let full_path := base_path </> (filename +:+ extension) in
  if negb (path_exists fs full_path) then Some full_path
  else probe fuel fs base_path filename extension 1.

(** the call as the program makes it, on the current file system; one probe
    more than the file system has paths always suffices
    (lemma [generate_unique_filename_terminates]) *)
Definition unique_path (base_path : Path) (filename extension : string) : M Path :=
  fun w =>
    match generate_unique_filename (S (size (fs w))) (fs w) base_path filename extension with
    | Some p => (Ok p, w)
    | None => (Exc "generate_unique_filename: out of fuel", w)
    end.

(** ** [count_emails_in_folder] (lines 213-228) *)

Fixpoint count_emails_in_folder (folder : Folder) : Z :=
  match folder with
  | mkFolder items folders =>
      let count := best_effort 0 (let* slots := items in Ok (Z.of_nat (length slots))) in
      match folders with
      | Exc _ => count
      | Ok subs =>
          (fix loop (subs : list (result Folder)) (count : Z) : Z :=
             match subs with
             | [] => count
             | Exc _ :: _ => count
             | Ok subfolder :: rest => loop rest (count + count_emails_in_folder subfolder)
             end) subs count
      end
  end.

(** ** [process_folder] (lines 231-275) *)

(** lines 253-255 *)
Fixpoint write_attachments (E : Env) (email_folder : Path)
    (atts : list (string * list Byte.byte)) : M unit :=
  match atts with
  | [] => ret tt
  | (att_name, att_data) :: rest =>
      let att_path := email_folder </> att_name in
      let! _ := write_bytes E att_path att_data in
      write_attachments E email_folder rest
  end.

(** lines 246-258: the writing of one rendered email *)
Definition write_email (E : Env) (output_dir : Path) (r : RenderedEmail) : M unit :=
  let filename_base := r.1.1 in
  let md_content := r.1.2 in
  match r.2 with
  | _ :: _ =>
      let! email_folder := unique_path output_dir filename_base EmptyString in
      let! _ := mkdir E email_folder in
      let md_path := email_folder </> (filename_base +:+ ".md") in
      let! _ := write_text E md_path md_content in
      write_attachments E email_folder r.2
  | [] =>
      let! md_path := unique_path output_dir filename_base ".md" in
      write_text E md_path md_content
  end.

(** the body of the inner [try] (lines 242-261) on what [items.Item(i)]
    gave; [true] when [processed] was incremented.  The rendering enters as
    a value: its temporary file (lines 175-184), written and removed in the
    directory [TEMP], is not part of [fs]. *)
Definition process_item (E : Env) (output_dir : Path) (slot : result MailItem) : M bool :=
  let! item := lift slot in
  let! cls := lift (Class item) in
  if cls =? 43 then
    let! r := lift (create_email_markdown E item) in
    let! _ := write_email E output_dir r in
    let! _ := pbar_update 1 in
    ret true
  else ret false.

(** the handler of lines 262-264 *)
Definition item_failed (E : Env) (e : string) : M unit :=
  let! _ := pbar_write E ("Warning: Failed to process item: " +:+ e) in
  pbar_update 1.

(** the loop of lines 240-264: the value of [processed] when the loop ends,
    and the exception that ended it, if one escaped a handler *)
Fixpoint items_loop (E : Env) (output_dir : Path) (slots : list (result MailItem))
    (processed : Z) (w : World) : (Z * result unit) * World :=
  match slots with
  | [] => ((processed, Ok tt), w)
  | slot :: rest =>
      match process_item E output_dir slot w with
      | (Ok counted, w1) =>
          items_loop E output_dir rest (if counted then processed + 1 else processed) w1
      | (Exc e, w1) =>
          match item_failed E e w1 with
          | (Ok _, w2) => items_loop E output_dir rest processed w2
          | (Exc e', w2) => ((processed, Exc e'), w2)
          end
      end
  end.

Fixpoint process_folder (E : Env) (folder : Folder) (output_dir : Path) (w : World)
  : result Z * World :=
  match folder with
  | mkFolder items folders =>
      (* lines 238-266 *)
      let '((processed, escaped), w1) :=
        match items with
        | Exc e => ((0, Exc e), w)
        | Ok slots => items_loop E output_dir slots 0 w
        end in
      let '(handled, w2) :=
        match escaped with
        | Ok _ => (Ok tt, w1)
        | Exc e => pbar_write E ("Warning: Error accessing folder items: " +:+ e) w1
        end in
      match handled with
      | Exc e => (Exc e, w2)
      | Ok _ =>
          (* lines 268-273; [except Exception: pass] keeps [processed] *)
          match folders with
          | Exc _ => (Ok processed, w2)
          | Ok subs =>
              (fix loop (subs : list (result Folder)) (processed : Z) (w : World)
                 : result Z * World :=
                 match subs with
                 | [] => (Ok processed, w)
                 | Exc _ :: _ => (Ok processed, w)
                 | Ok subfolder :: rest =>
                     match process_folder E subfolder output_dir w with
                     | (Ok n, w') => loop rest (processed + n) w'
                     | (Exc _, w') => (Ok processed, w')
                     end
                 end) subs processed w2
          end
      end
  end.

(** ** [process_pst_file] (lines 278-333) *)

Definition ArchiveResult : Type := string * Z * option string.

(** lines 299-308: the first top-level folder whose store path is the archive *)
Fixpoint find_store (pst_path : Path) (slots : list (result TopFolder))
  : result (option Folder) :=
  match slots with
  | [] => Ok None
  | Exc e :: _ => Exc e
  | Ok folder :: rest =>
      match Store_FilePath folder with
      | Ok store_path =>
          if bool_decide (store_path = pst_path) then Ok (Some (root_folder folder))
          else find_store pst_path rest
      | Exc _ => find_store pst_path rest
      end
  end.

(** lines 310-314: the last top-level folder *)
Definition last_folder (slots : list (result TopFolder)) : result (option Folder) :=
  match List.last (map Some slots) None with
  | None => Ok None
  | Some (Ok folder) => Ok (Some (root_folder folder))
  | Some (Exc e) => Exc e
  end.

Definition process_pst_file (E : Env) (pst_path : Path) (output_dir : option Path)
    (worker_id : Z) : M ArchiveResult :=
  let pst_name := name_of pst_path in
  fun w =>
    if negb (path_exists (fs w) pst_path)
    then (Ok (pst_name, 0, Some ("File not found: " +:+ path_str pst_path)), w)
    else
      let output_dir := default (parent pst_path) output_dir in
      (let! _ := mkdir E output_dir in
       try_exceptM
         (let! namespace := lift (Dispatch_GetNamespace E) in
          let! folders := lift (AddStore namespace pst_path) in
          let! slots := lift folders in
          let! found := lift (find_store pst_path slots) in
          let! pst_folder :=
            match found with
            | Some f => ret (Some f)
            | None => lift (last_folder slots)
            end in
          match pst_folder with
          | None => ret (pst_name, 0, Some "Could not locate PST folder in Outlook")
          | Some pst_folder =>
              let total_emails := count_emails_in_folder pst_folder in
              let! _ := tqdm total_emails in
              let! processed := process_folder E pst_folder output_dir in
              let! _ := ret (best_effort tt (RemoveStore namespace)) in
              ret (pst_name, processed, None)
          end)
         (fun e => ret (pst_name, 0, Some e))) w.

(** ** [main] (lines 383-402): the worker count and the executor *)

Definition num_workers (workers : Z) (pst_files : list Path) : Z :=
  Z.min workers (Z.of_nat (length pst_files)).

Inductive executor :=
| Sequential
| ThreadPool (max_workers : Z).

(** [ThreadPoolExecutor(max_workers=n)] raises [ValueError] unless [n > 0] *)
Definition ThreadPoolExecutor (max_workers : Z) : result executor :=
  if max_workers <=? 0 then Exc "max_workers must be greater than 0"
  else Ok (ThreadPool max_workers).

Definition choose_executor (workers : Z) (pst_files : list Path) : result executor :=
  let num_workers := num_workers workers pst_files in
  if num_workers =? 1 then Ok Sequential
  else ThreadPoolExecutor num_workers.

(** lines 390-393: the sequential run *)
Fixpoint run_sequential (E : Env) (pst_files : list Path) (output_dir : option Path)
  : M (list ArchiveResult) :=
  match pst_files with
  | [] => ret []
  | pst_path :: rest =>
      let! result := process_pst_file E pst_path output_dir 0 in
      let! results := run_sequential E rest output_dir in
      ret (result :: results)
  end.

(** * Notions used in the statements, and worked inputs *)

(** the first character, if any, does not satisfy [p] *)
Definition head_not (p : ascii -> bool) (s : string) : bool :=
  match s with
  | EmptyString => true
  | String c _ => negb (p c)
  end.

(** no two adjacent occurrences of [c] *)
Fixpoint no_run (c : ascii) (s : string) : bool :=
  match s with
  | EmptyString => true
  | String d r => negb (Ascii.eqb d c && starts_with_char c r) && no_run c r
  end.

(** a character outside the class [invalid_chars] *)
Definition valid_char (c : ascii) : bool := negb (invalid_chars c).

(** the characters of [strip('. _')] *)
Definition strip_set (c : ascii) : bool := char_in c ". _".

(** what every step of the sanitizer leaves unchanged: no invalid
    character, no doubled underscore, nothing to strip at either end *)
Record canonical (s : string) : Prop := {
  can_valid : all_chars valid_char s = true;
  can_runs : no_run "_" s = true;
  can_head : head_not strip_set s = true;
  can_last : rstrip_if strip_set s = s;
}.

(** the strings of the form [name<addr>], [name] non-empty without [<] and
    [addr] non-empty without [>] *)
Definition display_form (s name : string) : Prop :=
  exists addr,
    s = name +:+ "<" +:+ addr +:+ ">"
    /\ name <> EmptyString /\ char_in "<" name = false
    /\ addr <> EmptyString /\ char_in ">" addr = false.

(** the sender-name extraction as the specification words it: the
    local part is returned when the string has [@] and no angle bracket
    at all *)
Definition extract_sender_name_as_specified (sender : option string) : string :=
  match sender with
  | None => "unknown"
  | Some sender =>
      if negb (truthy sender) then "unknown"
      else
        match re_match_display_name (strip_ws sender) with
        | Some group1 => strip_ws group1
        | None =>
            if char_in "@" sender
               && negb (char_in "<" sender) && negb (char_in ">" sender)
            then split_first "@" sender
            else strip_ws sender
        end
  end.

(** the four rows of the field table, in order, somewhere in the document *)
Definition has_field_rows (doc : string) : Prop :=
  exists pre sender to_recipients cc_recipients date_display post,
    doc = pre +:+
          "| **From** | " +:+ sender +:+ " |" +:+ nl +:+
          "| **To** | " +:+ to_recipients +:+ " |" +:+ nl +:+
          "| **CC** | " +:+ cc_recipients +:+ " |" +:+ nl +:+
          "| **Date** | " +:+ date_display +:+ " |" +:+ nl +:+
          post.

(** the same mail item with an empty attachment collection *)
Definition without_attachments (item : MailItem) : MailItem :=
  {| Class := Class item; Subject := Subject item; SenderName := SenderName item;
     SenderEmailAddress := SenderEmailAddress item; ReceivedTime := ReceivedTime item;
     Recipients := Recipients item; CC := CC item; HTMLBody := HTMLBody item;
     Body := Body item; Attachments := Ok (Ok []) |}.

(** the computation did not raise *)
Definition is_ok {A : Type} (r : result A) : bool :=
  match r with Ok _ => true | Exc _ => false end.

(** the accessors whose failure is not guarded by an inner [try], and the
    clock used for an absent time stamp *)
Definition header_readable (E : Env) (mail_item : MailItem) : Prop :=
  is_ok (Subject mail_item) = true
  /\ is_ok (SenderName mail_item) = true
  /\ is_ok (SenderEmailAddress mail_item) = true
  /\ is_ok (ReceivedTime mail_item) = true
  /\ is_ok (Recipients mail_item) = true
  /\ is_ok (format_pair (now E)) = true.

(** the entry the iteration with index [i] appends, if it gets that far *)
Definition slot_entry (i : Z) (slot : result Attachment) : option (string * list Byte.byte) :=
  match slot with
  | Ok att =>
      match FileName att, SaveAsFile_read att with
      | Ok fn, Ok att_data =>
          Some (sanitize_filename (or_else fn ("attachment_" +:+ pretty i))
                                  default_max_length, att_data)
      | _, _ => None
      end
  | Exc _ => None
  end.

(** the iteration raises: the access, the file name, the materialisation or
    the clean-up does *)
Definition slot_raises (slot : result Attachment) : bool :=
  match slot with
  | Ok att =>
      negb (is_ok (FileName att) && is_ok (SaveAsFile_read att) && is_ok (unlink_temp att))
  | Exc _ => true
  end.

(** the entries of consecutive iterations, the first with index [i] *)
Fixpoint entries (i : Z) (slots : list (result Attachment)) : list (string * list Byte.byte) :=
  match slots with
  | [] => []
  | slot :: rest => option_list (slot_entry i slot) ++ entries (i + 1) rest
  end.

(** the paths probed, in the order of probing *)
Definition candidate (base_path : Path) (filename extension : string) (k : nat) : Path :=
  match k with
  | O => base_path </> (filename +:+ extension)
  | S _ => suffixed base_path filename extension (Z.of_nat k)
  end.

(** a run of the allocator: each allocated path is created before the next
    allocation, and nothing is removed in between *)
Inductive allocation_run : gmap Path node -> list Path -> gmap Path node -> Prop :=
| run_done fs : allocation_run fs [] fs
| run_step fs fs' fs'' fuel base_path filename extension p ps :
    generate_unique_filename fuel fs base_path filename extension = Some p ->
    dom fs ⊆ dom fs' ->
    p ∈ dom fs' ->
    allocation_run fs' ps fs'' ->
    allocation_run fs (p :: ps) fs''.

(** every path that exists lies in a directory that exists *)
Definition well_formed (fs : gmap Path node) : Prop :=
  map_Forall (fun p _ => node_at fs (parent p) = Some Dir) fs.

(** the file system after the attachments of [atts] were written below [d] *)
Definition with_attachments (d : Path) (atts : list (string * list Byte.byte))
    (fs : gmap Path node) : gmap Path node :=
  foldl (fun acc att => <[d </> att.1 := BinFile att.2]> acc) fs atts.

(** no node directly below [d] is a directory *)
Definition flat_below (d : Path) (fs : gmap Path node) : Prop :=
  forall n, fs !! (d </> n) <> Some Dir.

Definition fixed_clock : datetime :=
  {| strftime fmt :=
       Ok (if String.eqb fmt "%Y-%m-%d" then "2024-05-17" else "2024-05-17 09:30:00") |}.

Definition sample_env (refuses : Path -> option string)
    (rejects : string -> option string) (session : result Namespace) : Env :=
  {| Dispatch_GetNamespace := session;
     md := fun html => Ok html;
     now := fixed_clock;
     fromisoformat := fun _ => Exc "Invalid isoformat string";
     os_refuses := refuses;
     console_rejects := rejects |}.

Definition accept_all {A : Type} : A -> option string := fun _ => None.

(** an operating system that refuses exactly the path [p] *)
Definition refuse_path (p : Path) (msg : string) : Path -> option string :=
  fun q => if bool_decide (q = p) then Some msg else None.

Definition quiet_env : Env := sample_env accept_all accept_all (Exc "no mail client").

Definition file_attachment (name : string) (data : list Byte.byte) : Attachment :=
  {| FileName := Ok (Some name); SaveAsFile_read := Ok data; unlink_temp := Ok tt |}.

Definition unreadable_attachment (name : string) : Attachment :=
  {| FileName := Ok (Some name); SaveAsFile_read := Exc "SaveAsFile failed";
     unlink_temp := Ok tt |}.

Definition sample_mail (subject : string) (atts : list (result Attachment)) : MailItem :=
  {| Class := Ok 43;
     Subject := Ok (Some subject);
     SenderName := Ok (Some "Ann Lee");
     SenderEmailAddress := Ok (Some "ann@x.org");
     ReceivedTime := Ok (TimeObject fixed_clock);
     Recipients := Ok None;
     CC := Ok None;
     HTMLBody := Ok None;
     Body := Ok (Some "hello");
     Attachments := Ok (Ok atts) |}.

(** a mail item with every field [None] and every guarded accessor raising *)
Definition bare_mail : MailItem :=
  {| Class := Ok 43;
     Subject := Ok None;
     SenderName := Ok None;
     SenderEmailAddress := Ok None;
     ReceivedTime := Ok TimeNone;
     Recipients := Ok None;
     CC := Exc "CC unavailable";
     HTMLBody := Exc "HTMLBody unavailable";
     Body := Exc "Body unavailable";
     Attachments := Exc "Attachments unavailable" |}.

(** a mail item whose subject cannot be read *)
Definition broken_mail : MailItem :=
  {| Class := Ok 43;
     Subject := Exc "boom";
     SenderName := Ok None;
     SenderEmailAddress := Ok None;
     ReceivedTime := Ok TimeNone;
     Recipients := Ok None;
     CC := Ok None;
     HTMLBody := Ok None;
     Body := Ok None;
     Attachments := Ok (Ok []) |}.

Definition empty_world (files : gmap Path node) : World :=
  {| fs := files; pbar_total := 0; pbar_n := 0; console := [] |}.

Definition out_dir : gmap Path node := {[ ["out"] := Dir ]}.

(** an archive with one readable mail and one unreadable item, opened on a
    console that refuses every message *)
Definition late_failure_folder : Folder :=
  mkFolder (Ok [Ok (sample_mail "Hi" []); Exc "item unreadable"]) (Ok []).

Definition late_failure_env : Env :=
  sample_env accept_all (fun _ => Some "console closed")
    (Ok {| AddStore := fun _ =>
             Ok (Ok [Ok {| Store_FilePath := Ok ["data"; "mail.pst"];
                           root_folder := late_failure_folder |}]);
           RemoveStore := Ok tt |}).

Definition archive_world : World :=
  empty_world (<[ ["data"; "mail.pst"] := BinFile [] ]> {[ ["data"] := Dir ]}).

(** the bytes of the last attachment of [atts] that has the name [m] *)
Fixpoint last_named (m : string) (atts : list (string * list Byte.byte))
  : option (list Byte.byte) :=
  match atts with
  | [] => None
  | (n, data) :: rest =>
      match last_named m rest with
      | Some later => Some later
      | None => if String.eqb n m then Some data else None
      end
  end.

(** a mail whose two attachments have different file names that the
    sanitizer maps to one name *)
Definition twin_mail : MailItem :=
  sample_mail "Hi" [Ok (file_attachment "a:b.txt" [Byte.x41]);
                    Ok (file_attachment "a?b.txt" [Byte.x42])].

(** a mail whose attachment has the file name of the mail's own document *)
Definition namesake_mail : MailItem :=
  sample_mail "Hi" [Ok (file_attachment "2024-05-17_Ann Lee_Hi.md" [Byte.x41])].

(** ** Notions used in the further properties *)

(** the text of one recipient, from its name and its address *)
Definition recipient_text (n a : option string) : string :=
  let name := or_else n (or_else a "Unknown") in
  let address := or_else a EmptyString in
  if truthy address && negb (String.eqb address name)
  then name +:+ " <" +:+ address +:+ ">"
  else name.

(** a recipient slot all of whose reads succeed *)
Definition recipient_readable (slot : result Recipient) : option (option string * option string) :=
  match slot with
  | Ok r =>
      match Name r, Address r with
      | Ok n, Ok a => Some (n, a)
      | _, _ => None
      end
  | Exc _ => None
  end.

(** a guarded read that raised, replaced by the value read as absent *)
Definition absent_if_raised (r : result (option string)) : result (option string) :=
  match r with
  | Ok v => Ok v
  | Exc _ => Ok None
  end.

(** the mail item in which every guarded read that raises reads as absent,
    and an HTML body that cannot be converted reads as absent *)
Definition degraded (E : Env) (item : MailItem) : MailItem :=
  {| Class := Class item; Subject := Subject item; SenderName := SenderName item;
     SenderEmailAddress := SenderEmailAddress item; ReceivedTime := ReceivedTime item;
     Recipients := Recipients item;
     CC := absent_if_raised (CC item);
     HTMLBody :=
       match HTMLBody item with
       | Ok (Some html) => if is_ok (md E html) then Ok (Some html) else Ok None
       | Ok None => Ok None
       | Exc _ => Ok None
       end;
     Body := absent_if_raised (Body item);
     Attachments :=
       match Attachments item with
       | Ok (Ok slots) => Ok (Ok slots)
       | _ => Ok (Ok [])
       end |}.

(** a name that can stand as one path component *)
Definition component_safe (n : string) : Prop :=
  n <> EmptyString /\ len n <= 100
  /\ all_chars valid_char n = true /\ strip ". _" n = n.

(** what a guarded read of a text field leaves in its variable: the text,
    or the empty string when the field is absent or cannot be read *)
Definition guarded_text (r : result (option string)) : string :=
  match r with
  | Ok (Some s) => s
  | _ => EmptyString
  end.

(** the link line of an attachment name *)
Definition attachment_link (n : string) : string :=
  "- [" +:+ n +:+ "](" +:+ n +:+ ")".

(** the invariant of the attachment loop *)
Definition lists_agree (acc : att_lists) : Prop :=
  Forall (fun a => component_safe a.1) (attachments acc)
  /\ attachment_links acc = map (fun a => attachment_link a.1) (attachments acc).

(** the section that lists the attachments *)
Definition attachments_section (atts : list (string * list Byte.byte)) : string :=
  match atts with
  | [] => EmptyString
  | _ => "## Attachments" +:+ nl +:+ nl +:+
         join nl (map (fun a => attachment_link a.1) atts) +:+ nl +:+ nl
  end.

Section NamedLoops.
Variables (E : Env) (output_dir : Path).

(** the loop of lines 269-271 of [process_folder], by name *)
Fixpoint process_subfolders (subs : list (result Folder))
    (processed : Z) (w : World) : result Z * World :=
  match subs with
  | [] => (Ok processed, w)
  | Exc _ :: _ => (Ok processed, w)
  | Ok subfolder :: rest =>
      match process_folder E subfolder output_dir w with
      | (Ok n, w') => process_subfolders rest (processed + n) w'
      | (Exc _, w') => (Ok processed, w')
      end
  end.

End NamedLoops.


(** the items part of [process_folder] (lines 238-266) *)
Definition process_items (E : Env) (output_dir : Path) (items : collection MailItem)
    (w : World) : Z * result unit * World :=
  let '((processed, escaped), w1) :=
    match items with
    | Exc e => ((0, Exc e), w)
    | Ok slots => items_loop E output_dir slots 0 w
    end in
  let '(handled, w2) :=
    match escaped with
    | Ok _ => (Ok tt, w1)
    | Exc e => pbar_write E ("Warning: Error accessing folder items: " +:+ e) w1
    end in
  (processed, handled, w2).

(** a readable item that is not a mail: the walk passes over it *)
Definition passed_over (slot : result MailItem) : bool :=
  match slot with
  | Ok item =>
      match Class item with
      | Ok cls => negb (cls =? 43)
      | Exc _ => false
      end
  | Exc _ => false
  end.

Fixpoint count_passed_over (slots : list (result MailItem)) : Z :=
  match slots with
  | [] => 0
  | slot :: rest => (if passed_over slot then 1 else 0) + count_passed_over rest
  end.

(** every path of [fs0] is still there, with the same node *)
Definition keeps (fs0 fs : gmap Path node) : Prop :=
  forall p x, fs0 !! p = Some x -> fs !! p = Some x.



(** every path that [fs] has beyond [fs0] is [d] or lies directly in [d] *)
Definition new_inside (d : Path) (fs0 fs : gmap Path node) : Prop :=
  forall p, fs0 !! p = None -> is_Some (fs !! p) -> p = d \/ exists n, p = d </> n.

(** the state while the files of one email are written into [d] *)
Definition written_inside (d : Path) (fs0 fs : gmap Path node) : Prop :=
  well_formed fs /\ keeps fs0 fs /\ new_inside d fs0 fs.

(** the body of the [try] of [process_pst_file] (lines 294-330) *)
Definition session (E : Env) (pst_path output_dir : Path) : M ArchiveResult :=
  let pst_name := name_of pst_path in
  let! namespace := lift (Dispatch_GetNamespace E) in
  let! folders := lift (AddStore namespace pst_path) in
  let! slots := lift folders in
  let! found := lift (find_store pst_path slots) in
  let! pst_folder :=
    match found with
    | Some f => ret (Some f)
    | None => lift (last_folder slots)
    end in
  match pst_folder with
  | None => ret (pst_name, 0, Some "Could not locate PST folder in Outlook")
  | Some pst_folder =>
      let total_emails := count_emails_in_folder pst_folder in
      let! _ := tqdm total_emails in
      let! processed := process_folder E pst_folder output_dir in
      let! _ := ret (best_effort tt (RemoveStore namespace)) in
      ret (pst_name, processed, None)
  end.





(** [total_processed] in the summary of [main] (lines 409-415): the counts
    of the results whose error is [None] or empty *)
Definition total_processed (results : list ArchiveResult) : Z :=
  fold_left
    (fun total (r : ArchiveResult) =>
       if match r.2 with Some error => truthy error | None => false end
       then total
       else total + r.1.2)
    results 0.

(** * Lemmas and theorems *)

(** ** Strings *)

Section StringLemmas.
Variable p : ascii -> bool.

Lemma rstrip_if_cons c r :
  rstrip_if p (String c r) =
  match rstrip_if p r with
  | EmptyString => if p c then EmptyString else String c EmptyString
  | r' => String c r'
  end.
Proof. reflexivity. Qed.

Lemma rstrip_if_take s : exists n, rstrip_if p s = take n s.
Proof.
  induction s as [|c r [n Hn]].
  - exists 0%nat. reflexivity.
  - rewrite rstrip_if_cons. destruct (rstrip_if p r) as [|d r'].
    + destruct (p c); [exists 0%nat | exists 1%nat]; reflexivity.
    + exists (S n). simpl. rewrite <- Hn. reflexivity.
Qed.

Lemma rstrip_if_idem s : rstrip_if p (rstrip_if p s) = rstrip_if p s.
Proof.
  induction s as [|c r IH]; [reflexivity|].
  rewrite rstrip_if_cons. destruct (rstrip_if p r) as [|d r'] eqn:Hr.
  - destruct (p c) eqn:Hc; [reflexivity|]. simpl. rewrite Hc. reflexivity.
  - rewrite rstrip_if_cons, IH. reflexivity.
Qed.

Lemma length_take n s : (String.length (take n s) <= n)%nat.
Proof.
  revert s. induction n as [|n IH]; intros [|c r]; simpl; try lia.
  specialize (IH r). lia.
Qed.

Lemma length_take_le n s : (String.length (take n s) <= String.length s)%nat.
Proof.
  revert s. induction n as [|n IH]; intros [|c r]; simpl; try lia.
  specialize (IH r). lia.
Qed.

Lemma length_rstrip_if s : (String.length (rstrip_if p s) <= String.length s)%nat.
Proof. destruct (rstrip_if_take s) as [n ->]. apply length_take_le. Qed.

Lemma head_not_lstrip_if s : head_not p (lstrip_if p s) = true.
Proof.
  induction s as [|c r IH]; simpl; [reflexivity|].
  destruct (p c) eqn:Hc; [exact IH|]. simpl. rewrite Hc. reflexivity.
Qed.

Lemma lstrip_if_fixed s : head_not p s = true -> lstrip_if p s = s.
Proof.
  destruct s as [|c r]; simpl; [reflexivity|].
  destruct (p c); [discriminate | reflexivity].
Qed.

Lemma head_not_take n s : head_not p s = true -> head_not p (take n s) = true.
Proof. destruct n, s; simpl; auto. Qed.

Lemma head_not_rstrip_if s : head_not p s = true -> head_not p (rstrip_if p s) = true.
Proof. destruct (rstrip_if_take s) as [n ->]. apply head_not_take. Qed.

Variable q : ascii -> bool.

Lemma all_chars_take n s : all_chars q s = true -> all_chars q (take n s) = true.
Proof.
  revert s. induction n as [|n IH]; intros [|c r]; simpl; auto.
  intros [Hc Hr]%andb_prop. rewrite Hc, (IH _ Hr). reflexivity.
Qed.

Lemma all_chars_rstrip_if s : all_chars q s = true -> all_chars q (rstrip_if p s) = true.
Proof. destruct (rstrip_if_take s) as [n ->]. apply all_chars_take. Qed.

Lemma all_chars_lstrip_if s : all_chars q s = true -> all_chars q (lstrip_if p s) = true.
Proof.
  induction s as [|c r IH]; simpl; [reflexivity|].
  intros H. destruct (p c); [|exact H].
  apply andb_prop in H as [_ Hr]. auto.
Qed.

End StringLemmas.

Section Runs.
Variable c : ascii.

Lemma starts_with_char_re_sub_runs s :
  starts_with_char c (re_sub_runs c s) = starts_with_char c s.
Proof.
  induction s as [|d r IH]; simpl; [reflexivity|].
  destruct (Ascii.eqb d c && starts_with_char c r) eqn:H; [|reflexivity].
  apply andb_prop in H as [Hd Hr]. rewrite IH, Hr, Hd. reflexivity.
Qed.

Lemma no_run_re_sub_runs s : no_run c (re_sub_runs c s) = true.
Proof.
  induction s as [|d r IH]; simpl; [reflexivity|].
  destruct (Ascii.eqb d c && starts_with_char c r) eqn:H; [exact IH|].
  simpl. rewrite starts_with_char_re_sub_runs, H, IH. reflexivity.
Qed.

Lemma re_sub_runs_fixed s : no_run c s = true -> re_sub_runs c s = s.
Proof.
  induction s as [|d r IH]; simpl; [reflexivity|].
  intros [H Hr]%andb_prop. apply negb_true_iff in H. rewrite H, (IH Hr). reflexivity.
Qed.

Lemma starts_with_char_take n s :
  starts_with_char c (take n s) = true -> starts_with_char c s = true.
Proof. destruct n, s; simpl; auto; discriminate. Qed.

Lemma no_run_take n s : no_run c s = true -> no_run c (take n s) = true.
Proof.
  revert s. induction n as [|n IH]; intros [|d r]; simpl; auto.
  intros [H Hr]%andb_prop. rewrite (IH _ Hr), andb_true_r.
  apply negb_true_iff in H. apply negb_true_iff.
  destruct (Ascii.eqb d c); [|reflexivity]. simpl in *.
  destruct (starts_with_char c (take n r)) eqn:Ht; [|reflexivity].
  apply starts_with_char_take in Ht. congruence.
Qed.

Lemma no_run_rstrip_if p s : no_run c s = true -> no_run c (rstrip_if p s) = true.
Proof. destruct (rstrip_if_take p s) as [n ->]. apply no_run_take. Qed.

Lemma no_run_lstrip_if p s : no_run c s = true -> no_run c (lstrip_if p s) = true.
Proof.
  induction s as [|d r IH]; simpl; [reflexivity|].
  intros H. destruct (p d); [|exact H].
  apply andb_prop in H as [_ Hr]. auto.
Qed.

Lemma all_chars_re_sub_runs q s :
  all_chars q s = true -> all_chars q (re_sub_runs c s) = true.
Proof.
  induction s as [|d r IH]; simpl; [reflexivity|].
  intros [Hd Hr]%andb_prop.
  destruct (Ascii.eqb d c && starts_with_char c r); simpl; [auto|].
  rewrite Hd, (IH Hr). reflexivity.
Qed.

End Runs.

(** *** Character classes *)

Lemma all_chars_re_sub_class s :
  all_chars valid_char (re_sub_class invalid_chars "_" s) = true.
Proof.
  induction s as [|c r IH]; simpl; [reflexivity|].
  rewrite IH, andb_true_r. unfold valid_char.
  destruct (invalid_chars c) eqn:Hc; [reflexivity | rewrite Hc; reflexivity].
Qed.

Lemma re_sub_class_fixed s :
  all_chars valid_char s = true -> re_sub_class invalid_chars "_" s = s.
Proof.
  induction s as [|c r IH]; simpl; [reflexivity|].
  intros [Hc Hr]%andb_prop. unfold valid_char in Hc. apply negb_true_iff in Hc.
  rewrite Hc, (IH Hr). reflexivity.
Qed.

(** *** The sanitizer's normal forms *)

Lemma canonical_strip x :
  canonical (strip ". _" (re_sub_runs "_" (re_sub_class invalid_chars "_" x))).
Proof.
  unfold strip, rstrip. fold strip_set. split.
  - apply all_chars_rstrip_if, all_chars_lstrip_if, all_chars_re_sub_runs,
      all_chars_re_sub_class.
  - apply no_run_rstrip_if, no_run_lstrip_if, no_run_re_sub_runs.
  - apply head_not_rstrip_if, head_not_lstrip_if.
  - apply rstrip_if_idem.
Qed.

Lemma canonical_truncate n s : canonical s -> canonical (rstrip ". _" (take n s)).
Proof.
  intros [H1 H2 H3 H4]. unfold rstrip. fold strip_set. split.
  - apply all_chars_rstrip_if, all_chars_take, H1.
  - apply no_run_rstrip_if, no_run_take, H2.
  - apply head_not_rstrip_if, head_not_take, H3.
  - apply rstrip_if_idem.
Qed.

Lemma canonical_unnamed : canonical "unnamed".
Proof. split; reflexivity. Qed.

Lemma sanitize_filename_fixed s m :
  canonical s -> truthy s = true -> len s <= m -> sanitize_filename s m = s.
Proof.
  intros [H1 H2 H3 H4] Ht Hm. unfold sanitize_filename.
  rewrite (re_sub_class_fixed _ H1), (re_sub_runs_fixed _ _ H2).
  unfold strip, rstrip. fold strip_set.
  rewrite (lstrip_if_fixed _ _ H3), H4.
  destruct (len s >? m) eqn:Hgt; [lia|]. rewrite Ht. reflexivity.
Qed.

Lemma sanitize_filename_cases x m :
  0 <= m ->
  sanitize_filename x m = "unnamed" \/
  (canonical (sanitize_filename x m) /\ truthy (sanitize_filename x m) = true /\
   len (sanitize_filename x m) <= m).
Proof.
  intros Hm. unfold sanitize_filename.
  set (t := strip ". _" (re_sub_runs "_" (re_sub_class invalid_chars "_" x))).
  assert (Ht : canonical t) by apply canonical_strip.
  destruct (len t >? m) eqn:Hgt.
  - unfold slice_to. replace (0 <=? m) with true by lia.
    destruct (truthy (rstrip ". _" (take (Z.to_nat m) t))) eqn:Htr; [right|left; reflexivity].
    split; [apply canonical_truncate, Ht|]. split; [exact Htr|].
    unfold rstrip, len.
    pose proof (length_rstrip_if (fun c => char_in c ". _") (take (Z.to_nat m) t)).
    pose proof (length_take (Z.to_nat m) t). lia.
  - destruct (truthy t) eqn:Htr; [right|left; reflexivity].
    split; [exact Ht|]. split; [exact Htr | lia].
Qed.

Lemma sanitize_filename_valid x m :
  all_chars valid_char (sanitize_filename x m) = true.
Proof.
  unfold sanitize_filename.
  set (t := strip ". _" (re_sub_runs "_" (re_sub_class invalid_chars "_" x))).
  assert (Ht : all_chars valid_char t = true) by apply canonical_strip.
  destruct (len t >? m).
  - destruct (truthy _); [|reflexivity].
    unfold rstrip, slice_to. apply all_chars_rstrip_if.
    destruct (0 <=? m); apply all_chars_take, Ht.
  - destruct (truthy t); [exact Ht | reflexivity].
Qed.

Lemma sanitize_filename_truthy x m : truthy (sanitize_filename x m) = true.
Proof.
  unfold sanitize_filename.
  match goal with |- truthy (if truthy ?s then _ else _) = _ =>
    destruct (truthy s) eqn:H end; [exact H | reflexivity].
Qed.

Lemma sanitize_filename_idempotent_ge7 x m :
  7 <= m -> sanitize_filename (sanitize_filename x m) m = sanitize_filename x m.
Proof.
  intros Hm. destruct (sanitize_filename_cases x m) as [-> | (Hc & Ht & Hl)]; [lia| |].
  - apply sanitize_filename_fixed; [apply canonical_unnamed | reflexivity |].
    unfold len. simpl. lia.
  - apply sanitize_filename_fixed; assumption.
Qed.

(** C8: at the default [max_length] of 100 the sanitizer is idempotent:
    sanitizing a sanitized name returns it unchanged. *)
Theorem C8_sanitize_filename_idempotent (x : string) :
  sanitize_filename (sanitize_filename x default_max_length) default_max_length
  = sanitize_filename x default_max_length.
Proof. apply sanitize_filename_idempotent_ge7. unfold default_max_length. lia. Qed.

(** C7 (amended): for every input and every [max_length], the output holds
    none of the characters of the class [invalid_chars] (U+0000..U+001F and
    the nine punctuation marks) and is never empty; for [max_length >= 0] it
    is at most [max_length] long or is the placeholder ["unnamed"], so it
    is at most [max_length] long whenever [max_length >= 7], as at the
    default 100. *)
Theorem C7_sanitize_filename_output (name : string) (max_length : Z) :
  all_chars (fun c => negb (invalid_chars c)) (sanitize_filename name max_length) = true
  /\ sanitize_filename name max_length <> EmptyString
  /\ (0 <= max_length ->
      len (sanitize_filename name max_length) <= max_length
      \/ sanitize_filename name max_length = "unnamed")
  /\ (7 <= max_length -> len (sanitize_filename name max_length) <= max_length).
Proof.
  split; [apply sanitize_filename_valid|]. split.
  { pose proof (sanitize_filename_truthy name max_length) as H.
    intros Heq. rewrite Heq in H. discriminate. }
  split.
  - intros Hm. destruct (sanitize_filename_cases name max_length Hm) as [-> | (_ & _ & Hl)];
      [right; reflexivity | left; exact Hl].
  - intros Hm. destruct (sanitize_filename_cases name max_length) as [-> | (_ & _ & Hl)];
      [lia | unfold len; simpl; lia | exact Hl].
Qed.

(** C7 as stated fails for a small [max_length]: the placeholder is seven
    characters long. *)
Lemma C7_counterexample :
  sanitize_filename EmptyString 3 = "unnamed"
  /\ 3 < len (sanitize_filename EmptyString 3).
Proof. split; reflexivity. Qed.

Lemma C7_sanitize_filename_output_witness :
  len (sanitize_filename "quarterly: report?.pdf" 12) <= 12
  /\ sanitize_filename "quarterly: report?.pdf" 12 = "quarterly_ r".
Proof.
  split; [|reflexivity].
  apply (C7_sanitize_filename_output "quarterly: report?.pdf" 12). lia.
Defined.

(** U+007F is outside the class of [invalid_chars] and is kept. *)
Remark sanitize_filename_keeps_del :
  sanitize_filename (String (ascii_of_nat 127) EmptyString) default_max_length
  = String (ascii_of_nat 127) EmptyString.
Proof. reflexivity. Qed.

Example sanitize_filename_examples :
  sanitize_filename "a<b>:c__d. " default_max_length = "a_b_c_d"
  /\ sanitize_filename ".. __" default_max_length = "unnamed"
  /\ sanitize_filename "abc" (-1) = "ab"
  /\ sanitize_filename "unnamed" 3 = "unn".
Proof. repeat split. Qed.

(** ** Sender names *)

Lemma str_app_cons c a b : String c a +:+ b = String c (a +:+ b).
Proof. reflexivity. Qed.

Lemma str_app_nil_l b : EmptyString +:+ b = b.
Proof. reflexivity. Qed.

Lemma str_app_nil_r a : a +:+ EmptyString = a.
Proof. induction a as [|c a IH]; [reflexivity|]. rewrite str_app_cons, IH. reflexivity. Qed.

Lemma str_app_assoc a b c : (a +:+ b) +:+ c = a +:+ (b +:+ c).
Proof. induction a as [|d a IH]; [reflexivity|]. rewrite !str_app_cons, IH. reflexivity. Qed.

Lemma char_in_app c a b : char_in c (a +:+ b) = char_in c a || char_in c b.
Proof.
  induction a as [|d a IH]; [reflexivity|].
  rewrite str_app_cons. simpl. rewrite IH, orb_assoc. reflexivity.
Qed.

Lemma char_in_all_chars d s :
  char_in d s = false <-> all_chars (not_char d) s = true.
Proof.
  induction s as [|c r IH]; simpl; [tauto|]. unfold not_char at 1.
  rewrite Ascii.eqb_sym. destruct (Ascii.eqb c d); simpl; [split; discriminate | exact IH].
Qed.

Lemma span_app p a b :
  all_chars p a = true -> head_not p b = true -> span p (a +:+ b) = (a, b).
Proof.
  intros Ha Hb. induction a as [|c a IH].
  - rewrite str_app_nil_l. destruct b as [|d b]; simpl in *; [reflexivity|].
    apply negb_true_iff in Hb. rewrite Hb. reflexivity.
  - simpl in Ha. apply andb_prop in Ha as [Hc Ha].
    rewrite str_app_cons. simpl. rewrite Hc, (IH Ha). reflexivity.
Qed.

Lemma span_spec p s :
  s = (span p s).1 +:+ (span p s).2
  /\ all_chars p (span p s).1 = true
  /\ head_not p (span p s).2 = true.
Proof.
  induction s as [|c r (IH1 & IH2 & IH3)]; simpl; [repeat split|].
  destruct (p c) eqn:Hc; simpl.
  - rewrite str_app_cons, <- IH1, Hc, IH2. repeat split. exact IH3.
  - rewrite Hc. repeat split.
Qed.

Lemma truthy_true s : truthy s = true <-> s <> EmptyString.
Proof. destruct s; simpl; split; congruence. Qed.

Lemma re_match_display_name_spec s name :
  re_match_display_name s = Some name <->
  exists tail, at_end tail = true /\ exists s', s = s' +:+ tail /\ display_form s' name.
Proof.
  unfold re_match_display_name. split.
  - destruct (span_spec (not_char "<") s) as (Hs & Hn & _).
    destruct (span (not_char "<") s) as [n rest]. simpl in *.
    destruct (truthy n) eqn:Htn; [|discriminate].
    destruct rest as [|c rest1]; [discriminate|].
    destruct (Ascii.eqb_spec c "<") as [-> |]; [|discriminate].
    destruct (span_spec (not_char ">") rest1) as (Hr & Ha & _).
    destruct (span (not_char ">") rest1) as [addr rest2]. simpl in *.
    destruct (truthy addr) eqn:Hta; [|discriminate].
    destruct rest2 as [|d tail]; [discriminate|].
    destruct (Ascii.eqb_spec d ">") as [-> |]; [|discriminate]. simpl.
    destruct (at_end tail) eqn:Hend; [|discriminate].
    intros [= <-]. exists tail. split; [exact Hend|].
    exists (n +:+ "<" +:+ addr +:+ ">"). split.
    + rewrite Hs, Hr, !str_app_assoc. reflexivity.
    + exists addr. repeat split.
      * apply truthy_true, Htn.
      * apply char_in_all_chars, Hn.
      * apply truthy_true, Hta.
      * apply char_in_all_chars, Ha.
  - intros (tail & Hend & s' & -> & addr & -> & Hn & Hn' & Ha & Ha').
    rewrite !str_app_assoc.
    rewrite (span_app (not_char "<") name); [|apply char_in_all_chars, Hn' | reflexivity].
    apply truthy_true in Hn. rewrite Hn. rewrite !str_app_cons, str_app_nil_l. simpl Ascii.eqb.
    cbv iota.
    rewrite (span_app (not_char ">") addr); [|apply char_in_all_chars, Ha' | reflexivity].
    apply truthy_true in Ha. rewrite Ha, str_app_nil_l. simpl.
    rewrite Hend. reflexivity.
Qed.

(** the matcher accepts the language of the pattern: a non-empty run
    without [<], white space, [<], a non-empty run without [>], [>], and the
    end of the string; group 1 is the longest choice of the first run, which
    takes the white space in *)
Lemma re_match_display_name_regex s g ws addr tail :
  s = g +:+ ws +:+ "<" +:+ addr +:+ ">" +:+ tail ->
  g <> EmptyString -> char_in "<" g = false ->
  all_chars isspace ws = true ->
  addr <> EmptyString -> char_in ">" addr = false ->
  at_end tail = true ->
  re_match_display_name s = Some (g +:+ ws).
Proof.
  intros -> Hg Hg' Hws Ha Ha' Hend. apply re_match_display_name_spec.
  exists tail. split; [exact Hend|].
  exists ((g +:+ ws) +:+ "<" +:+ addr +:+ ">"). split.
  - rewrite !str_app_assoc. reflexivity.
  - exists addr. split; [reflexivity|]. split.
    + destruct g; [congruence | discriminate].
    + split; [|split; assumption].
      rewrite char_in_app, Hg'. simpl.
      clear -Hws. induction ws as [|c ws IH]; [reflexivity|].
      cbn [all_chars char_in] in *. apply andb_prop in Hws as [Hc Hws].
      rewrite (IH Hws), orb_false_r.
      destruct (Ascii.eqb_spec "<" c) as [<- |]; [discriminate | reflexivity].
Qed.

Lemma rstrip_if_last p s a c :
  rstrip_if p s = a +:+ String c EmptyString -> p c = false.
Proof.
  revert a. induction s as [|d r IH]; intros a.
  - destruct a; discriminate.
  - rewrite rstrip_if_cons. destruct (rstrip_if p r) as [|e r'] eqn:Hr.
    + destruct (p d) eqn:Hd; [destruct a; discriminate|].
      destruct a as [|d' a]; [intros [= <-]; exact Hd|].
      rewrite str_app_cons. intros [= _ H]. destruct a; discriminate.
    + destruct a as [|d' a]; [discriminate|].
      rewrite str_app_cons. intros [= _ H]. apply (IH a). exact H.
Qed.

Lemma char_in_strip_ws c s : char_in c s = false -> char_in c (strip_ws s) = false.
Proof.
  rewrite !char_in_all_chars. intros H.
  apply all_chars_rstrip_if, all_chars_lstrip_if, H.
Qed.

Lemma re_match_display_name_stripped s name :
  re_match_display_name (strip_ws s) = Some name <-> display_form (strip_ws s) name.
Proof.
  rewrite re_match_display_name_spec. split.
  - intros (tail & Hend & s' & Hs & Hd).
    destruct tail as [|c [|? ?]]; [| |discriminate].
    + rewrite str_app_nil_r in Hs. rewrite Hs. exact Hd.
    + simpl in Hend. apply Ascii.eqb_eq in Hend. subst c.
      apply rstrip_if_last in Hs. discriminate.
  - intros Hd. exists EmptyString. split; [reflexivity|].
    exists (strip_ws s). rewrite str_app_nil_r. split; [reflexivity | exact Hd].
Qed.

Lemma display_form_has_lt s name : display_form s name -> char_in "<" s = true.
Proof.
  intros (addr & -> & _). rewrite !char_in_app. simpl. apply orb_true_r.
Qed.

(** C5 as stated fails on a string with [@] and a lone [>]: the code
    tests for [<] only and returns the part before [@]. *)
Lemma C5_counterexample :
  extract_sender_name (Some "a@b>") = "a"
  /\ extract_sender_name_as_specified (Some "a@b>") = "a@b>"
  /\ char_in ">" "a@b>" = true.
Proof. repeat split. Qed.

(** C5 (amended): an absent or empty sender gives ["unknown"]; a sender whose
    trimmed form is [name<addr>] gives the trimmed [name]; otherwise a
    sender with [@] and no [<] gives the text before its first [@]; any
    other sender is returned trimmed.  The three examples of the claim
    hold. *)
Theorem C5_extract_sender_name :
  extract_sender_name None = "unknown"
  /\ extract_sender_name (Some EmptyString) = "unknown"
  /\ (forall s name,
        s <> EmptyString -> display_form (strip_ws s) name ->
        extract_sender_name (Some s) = strip_ws name)
  /\ (forall local rest,
        char_in "@" local = false ->
        char_in "<" (local +:+ "@" +:+ rest) = false ->
        extract_sender_name (Some (local +:+ "@" +:+ rest)) = local)
  /\ (forall s,
        s <> EmptyString ->
        (forall name, ~ display_form (strip_ws s) name) ->
        ~ (char_in "@" s = true /\ char_in "<" s = false) ->
        extract_sender_name (Some s) = strip_ws s)
  /\ extract_sender_name (Some "Name <a@b.com>") = "Name"
  /\ extract_sender_name (Some "a@b.com") = "a"
  /\ extract_sender_name (Some "Plain Name") = "Plain Name".
Proof.
  split; [reflexivity|]. split; [reflexivity|]. split; [|split; [|split]].
  - intros s name Hs Hd. unfold extract_sender_name.
    apply truthy_true in Hs. rewrite Hs. simpl.
    apply re_match_display_name_stripped in Hd. rewrite Hd. reflexivity.
  - intros local rest Hl Hlt. unfold extract_sender_name.
    set (s := local +:+ "@" +:+ rest) in *.
    assert (Hat : char_in "@" s = true).
    { unfold s. rewrite !char_in_app. simpl. apply orb_true_r. }
    assert (Hs : truthy s = true) by (destruct s; [discriminate | reflexivity]).
    rewrite Hs. simpl.
    destruct (re_match_display_name (strip_ws s)) as [name|] eqn:Hm.
    + apply re_match_display_name_stripped, display_form_has_lt in Hm.
      rewrite (char_in_strip_ws _ _ Hlt) in Hm. discriminate.
    + rewrite Hat, Hlt. simpl. unfold split_first, s.
      change (fun c => negb (Ascii.eqb c "@")) with (not_char "@").
      rewrite span_app; [reflexivity | apply char_in_all_chars, Hl | reflexivity].
  - intros s Hs Hno Hat. unfold extract_sender_name.
    apply truthy_true in Hs. rewrite Hs. simpl.
    destruct (re_match_display_name (strip_ws s)) as [name|] eqn:Hm.
    + apply re_match_display_name_stripped in Hm. destruct (Hno _ Hm).
    + destruct (char_in "@" s) eqn:H1; [|reflexivity].
      destruct (char_in "<" s) eqn:H2; [reflexivity|]. tauto.
  - repeat split.
Qed.

Lemma C5_extract_sender_name_witness :
  extract_sender_name (Some "  Ann Lee  <ann@x.org> ") = "Ann Lee"
  /\ extract_sender_name (Some (" j.doe" +:+ "@" +:+ "x.org>")) = " j.doe"
  /\ extract_sender_name (Some "  <only> ") = "<only>".
Proof.
  destruct C5_extract_sender_name as (_ & _ & H1 & H2 & H3 & _).
  split; [|split].
  - apply (H1 "  Ann Lee  <ann@x.org> " "Ann Lee  ").
    + discriminate.
    + exists "ann@x.org". repeat split; discriminate.
  - apply (H2 " j.doe" "x.org>"); reflexivity.
  - apply (H3 "  <only> ").
    + discriminate.
    + intros name Hd. apply re_match_display_name_stripped in Hd. discriminate.
    + intros [H _]. discriminate.
Defined.

(** ** The item renderer *)

Lemma has_field_rows_header subject sender to_r cc_r date rest :
  has_field_rows (header subject sender to_r cc_r date +:+ rest).
Proof.
  exists ("# " +:+ subject +:+ nl +:+ nl +:+
          "| Field | Value |" +:+ nl +:+ "|-------|-------|" +:+ nl),
    sender, to_r, cc_r, date, (nl +:+ rest).
  unfold header. rewrite !str_app_assoc. reflexivity.
Qed.

Lemma bind_Ok {A B} (r : result A) (k : A -> result B) b :
  bind r k = Ok b -> exists a, r = Ok a /\ k a = Ok b.
Proof. destruct r as [a|e]; simpl; [eauto | discriminate]. Qed.

(** what a successful [render] returns *)
Lemma render_Ok E item r :
  render E item = Ok r ->
  (exists subject sender to_r cc_r date rest,
      r.1.2 = header subject sender to_r cc_r date +:+ rest)
  /\ r.2 = attachments (extract_attachments (Attachments item)).1.
Proof.
  unfold render. intros H.
  apply bind_Ok in H as (subj & _ & H).
  apply bind_Ok in H as (sn & _ & H).
  apply bind_Ok in H as (sender & _ & H).
  apply bind_Ok in H as (rt & _ & H).
  apply bind_Ok in H as (recips & _ & H).
  apply bind_Ok in H as (dates & _ & H).
  cbv zeta in H. injection H as <-. simpl. split; [|reflexivity].
  destruct (attachment_links _); rewrite ?str_app_assoc; eauto 10.
Qed.

Lemma render_Exc_without_attachments E item e :
  render E item = Exc e <-> render E (without_attachments item) = Exc e.
Proof.
  unfold render. simpl.
  destruct (Subject item); simpl; [|tauto].
  destruct (SenderName item); simpl; [|tauto].
  match goal with |- bind ?s _ = _ <-> _ => destruct s end; simpl; [|tauto].
  destruct (ReceivedTime item); simpl; [|tauto].
  destruct (Recipients item); simpl; [|tauto].
  destruct (format_email_date E _); simpl; [|tauto].
  split; discriminate.
Qed.

Lemma create_email_markdown_total E item :
  exists r, create_email_markdown E item = Ok r.
Proof.
  unfold create_email_markdown, try_except. destruct (render E item); eauto.
Qed.

Lemma format_email_date_ok E t :
  is_ok (format_pair (now E)) = true -> is_ok (format_email_date E t) = true.
Proof.
  intros Hnow. destruct t as [|t|str]; simpl; [exact Hnow| |].
  - destruct (format_pair t); reflexivity.
  - destruct str as [text|]; simpl; [|reflexivity].
    destruct (fromisoformat E text) as [dt|]; simpl; [|reflexivity].
    destruct (format_pair dt); reflexivity.
Qed.

Lemma render_total E item :
  header_readable E item -> exists r, render E item = Ok r.
Proof.
  intros (H1 & H2 & H3 & H4 & H5 & H6). unfold render.
  destruct (Subject item) as [subj|]; [|discriminate]. simpl.
  destruct (SenderName item) as [sn|]; [|discriminate]. simpl.
  destruct (SenderEmailAddress item) as [addr|]; [|discriminate].
  assert (Hs : exists sender,
    match sn with
    | Some s => if truthy s then Ok s else let* a := Ok addr in Ok (or_else a "Unknown")
    | None => let* a := Ok addr in Ok (or_else a "Unknown")
    end = Ok sender).
  { destruct sn as [s|]; [destruct (truthy s)|]; simpl; eauto. }
  destruct Hs as [sender ->]. simpl.
  destruct (ReceivedTime item) as [rt|]; [|discriminate]. simpl.
  destruct (Recipients item) as [recips|]; [|discriminate]. simpl.
  pose proof (format_email_date_ok E rt H6) as Hd.
  destruct (format_email_date E rt) as [dates|]; [|discriminate]. simpl. eauto.
Qed.

(** C1: for every mail item the renderer returns (it never raises).  When
    the body of its [try] raises [e], the result is the file name
    ["error_email"], the document titled "Error Processing Email" with the
    text of [e], and no attachment; otherwise the document holds the rows
    From, To, CC, Date in that order.  The body does not raise when the
    unguarded accessors can be read, whatever fields are empty or [None]. *)
Theorem C1_create_email_markdown (E : Env) (mail_item : MailItem) :
  exists filename_base md_content atts,
    create_email_markdown E mail_item = Ok (filename_base, md_content, atts)
    /\ match render E mail_item with
       | Ok _ => has_field_rows md_content
       | Exc e =>
           filename_base = "error_email"
           /\ md_content = "# Error Processing Email" +:+ nl +:+ nl +:+ "Error: " +:+ e
           /\ atts = []
       end
    /\ (header_readable E mail_item -> has_field_rows md_content).
Proof.
  unfold create_email_markdown, try_except.
  destruct (render E mail_item) as [[[base doc] atts]|e] eqn:Hr.
  - exists base, doc, atts. split; [reflexivity|].
    apply render_Ok in Hr as [(subject & sender & to_r & cc_r & date & rest & Hdoc) _].
    simpl in Hdoc. rewrite Hdoc. split; [|intros _]; apply has_field_rows_header.
  - exists "error_email", (error_document e), []. split; [reflexivity|].
    split; [repeat split|].
    intros [r Hr']%render_total. congruence.
Qed.

Lemma C1_create_email_markdown_witness :
  exists filename_base md_content atts,
    create_email_markdown quiet_env bare_mail = Ok (filename_base, md_content, atts)
    /\ has_field_rows md_content.
Proof.
  destruct (C1_create_email_markdown quiet_env bare_mail) as (b & d & a & H1 & _ & H3).
  exists b, d, a. split; [exact H1 | apply H3; repeat split].
Defined.

Example bare_mail_renders :
  create_email_markdown quiet_env bare_mail
  = Ok ("2024-05-17_Unknown_No Subject",
        header "No Subject" "Unknown" EmptyString EmptyString "2024-05-17 09:30:00"
        +:+ "## Content" +:+ nl +:+ nl,
        []).
Proof. vm_compute. reflexivity. Qed.

(** the degraded document is not a field table *)
Example broken_mail_renders :
  create_email_markdown quiet_env broken_mail
  = Ok ("error_email", "# Error Processing Email" +:+ nl +:+ nl +:+ "Error: boom", [])
  /\ contains "| **From** |" (error_document "boom") = false.
Proof. vm_compute. split; reflexivity. Qed.

(** *** Attachment extraction *)

Lemma attachment_step_spec i slot acc :
  attachments (attachment_step i slot acc).1
  = attachments acc ++ option_list (slot_entry i slot)
  /\ is_ok (attachment_step i slot acc).2 = negb (slot_raises slot).
Proof.
  unfold attachment_step, slot_entry, slot_raises.
  destruct slot as [att|e]; simpl; [|rewrite app_nil_r; auto].
  destruct (FileName att); simpl; [|rewrite app_nil_r; auto].
  destruct (SaveAsFile_read att); simpl.
  - destruct (unlink_temp att); auto.
  - rewrite app_nil_r. destruct (unlink_temp att); auto.
Qed.

Lemma attachment_loop_failure good bad rest : forall i acc,
  Forall (fun slot => slot_raises slot = false) good ->
  slot_raises bad = true ->
  attachments (attachment_loop i (good ++ bad :: rest) acc).1
  = attachments acc ++ entries i (good ++ [bad])
  /\ is_ok (attachment_loop i (good ++ bad :: rest) acc).2 = false.
Proof.
  induction good as [|g good IH]; intros i acc Hgood Hbad; simpl.
  - destruct (attachment_step_spec i bad acc) as [Ha Hr].
    destruct (attachment_step i bad acc) as [acc' [[]|e]]; simpl in *.
    + rewrite Hbad in Hr. discriminate.
    + rewrite Ha, app_nil_r. auto.
  - inversion Hgood as [|? ? Hg Hgood']; subst.
    destruct (attachment_step_spec i g acc) as [Ha Hr].
    destruct (attachment_step i g acc) as [acc' [[]|e]]; simpl in *.
    + destruct (IH (i + 1) acc' Hgood' Hbad) as [IH1 IH2].
      rewrite IH1, Ha, <- app_assoc. auto.
    + rewrite Hg in Hr. discriminate.
Qed.

Lemma entries_length good : forall i,
  Forall (fun slot => slot_raises slot = false) good ->
  length (entries i good) = length good.
Proof.
  induction good as [|g good IH]; intros i Hgood; [reflexivity|].
  inversion Hgood as [|? ? Hg Hgood']; subst. simpl.
  rewrite length_app, (IH _ Hgood').
  destruct g as [att|]; [|discriminate]. simpl in *.
  destruct (FileName att), (SaveAsFile_read att); simpl in *; try discriminate; reflexivity.
Qed.

Lemma entries_app a b : forall i,
  entries i (a ++ b) = entries i a ++ entries (i + Z.of_nat (length a)) b.
Proof.
  induction a as [|x a IH]; intros i; simpl.
  - rewrite Z.add_0_r. reflexivity.
  - rewrite IH, <- app_assoc. do 3 f_equal. lia.
Qed.

(** C2 (amended): when the attachment loop raises at some attachment, the
    attachments materialised before the failure stay in the list (one entry
    per attachment before the failing one, and the failing one too when only
    its clean-up raised); the failure never reaches the outer handler, so
    the item renders as it would without attachments. *)
Theorem C2_attachment_failure (E : Env) (mail_item : MailItem)
    (good : list (result Attachment)) (bad : result Attachment)
    (rest : list (result Attachment)) :
  Attachments mail_item = Ok (Ok (good ++ bad :: rest)) ->
  Forall (fun slot => slot_raises slot = false) good ->
  slot_raises bad = true ->
  is_ok (extract_attachments (Attachments mail_item)).2 = false
  /\ (exists r, create_email_markdown E mail_item = Ok r)
  /\ (forall e, render E mail_item = Exc e <->
                render E (without_attachments mail_item) = Exc e)
  /\ (forall r, render E mail_item = Ok r ->
        create_email_markdown E mail_item = Ok r
        /\ r.2 = entries 1 good ++ option_list (slot_entry (1 + Z.of_nat (length good)) bad)
        /\ length (entries 1 good) = length good).
Proof.
  intros Hatt Hgood Hbad.
  destruct (attachment_loop_failure good bad rest 1
              {| attachments := []; attachment_links := [] |} Hgood Hbad) as [Ha Hr].
  split; [|split; [|split]].
  - rewrite Hatt. exact Hr.
  - apply create_email_markdown_total.
  - intros e. apply render_Exc_without_attachments.
  - intros r Hrender. split; [|split].
    + unfold create_email_markdown. rewrite Hrender. reflexivity.
    + apply render_Ok in Hrender as [_ ->]. rewrite Hatt. simpl extract_attachments.
      rewrite Ha. simpl. rewrite entries_app. simpl. rewrite app_nil_r. reflexivity.
    + apply entries_length, Hgood.
Qed.

(** ** The unique path allocator *)

Lemma str_length_app a b :
  String.length (a +:+ b) = (String.length a + String.length b)%nat.
Proof. induction a as [|c a IH]; [reflexivity|]. rewrite str_app_cons. simpl. lia. Qed.

Lemma str_app_inj_r e a b : a +:+ e = b +:+ e -> a = b.
Proof.
  revert b. induction a as [|c a IH]; intros [|d b] H.
  - reflexivity.
  - apply (f_equal String.length) in H. rewrite !str_length_app in H. simpl in H. lia.
  - apply (f_equal String.length) in H. rewrite !str_length_app in H. simpl in H. lia.
  - rewrite !str_app_cons in H. injection H as -> H. f_equal. auto.
Qed.

Lemma path_join_inj base m n : base </> m = base </> n -> m = n.
Proof. unfold path_join. intros H. apply app_inv_head in H. congruence. Qed.

Lemma suffixed_inj base filename extension c1 c2 :
  suffixed base filename extension c1 = suffixed base filename extension c2 -> c1 = c2.
Proof.
  unfold suffixed. intros H%path_join_inj.
  apply (inj (String.app filename)) in H.
  apply (inj (String.app "_")) in H.
  apply str_app_inj_r in H. apply (inj pretty) in H. exact H.
Qed.

Lemma path_exists_join fs base n :
  path_exists fs (base </> n) = bool_decide (is_Some (fs !! (base </> n))).
Proof. unfold path_exists, node_at, path_join. destruct base; reflexivity. Qed.

Lemma path_exists_dom fs base n :
  path_exists fs (base </> n) = true <-> base </> n ∈ dom fs.
Proof. rewrite path_exists_join, bool_decide_eq_true, elem_of_dom. reflexivity. Qed.

Section Probe.
Variables (fs : gmap Path node) (base_path : Path) (filename extension : string).

Local Abbreviation cand := (suffixed base_path filename extension).

Lemma probe_Some fuel : forall counter p,
  probe fuel fs base_path filename extension counter = Some p ->
  exists j, 0 <= j < Z.of_nat fuel
    /\ p = cand (counter + j)
    /\ path_exists fs p = false
    /\ forall i, 0 <= i < j -> path_exists fs (cand (counter + i)) = true.
Proof.
  induction fuel as [|fuel IH]; intros counter p; simpl; [discriminate|].
  destruct (path_exists fs (cand counter)) eqn:Hex; simpl.
  - intros (j & Hj & -> & Hp & Hlt)%IH. exists (j + 1). split; [lia|].
    split; [f_equal; lia|]. split; [rewrite <- Hp; f_equal; f_equal; lia|].
    intros i Hi. destruct (decide (i = 0)) as [-> | Hne].
    + rewrite Z.add_0_r. exact Hex.
    + replace (counter + i) with (counter + 1 + (i - 1)) by lia. apply Hlt. lia.
  - intros [= <-]. exists 0. rewrite Z.add_0_r.
    split; [lia|]. split; [reflexivity|]. split; [exact Hex | lia].
Qed.

Lemma probe_None fuel : forall counter,
  probe fuel fs base_path filename extension counter = None ->
  forall i, 0 <= i < Z.of_nat fuel -> path_exists fs (cand (counter + i)) = true.
Proof.
  induction fuel as [|fuel IH]; intros counter; simpl; [lia|].
  destruct (path_exists fs (cand counter)) eqn:Hex; simpl; [|discriminate].
  intros H i Hi. destruct (decide (i = 0)) as [-> | Hne].
  - rewrite Z.add_0_r. exact Hex.
  - replace (counter + i) with (counter + 1 + (i - 1)) by lia. apply (IH _ H). lia.
Qed.

(** a finite directory cannot hold all of [size fs + 1] distinct paths *)
Lemma probe_enough_fuel fuel counter :
  (size fs < fuel)%nat ->
  is_Some (probe fuel fs base_path filename extension counter).
Proof.
  intros Hfuel.
  destruct (probe fuel fs base_path filename extension counter) eqn:Hp; [eauto|].
  exfalso. pose proof (probe_None _ _ Hp) as Hall.
  set (l := (fun i => cand (counter + i)) <$> seqZ 0 (Z.of_nat fuel)).
  assert (Hnd : NoDup l).
  { apply NoDup_fmap_2; [|apply NoDup_seqZ].
    intros i j Hij%suffixed_inj. lia. }
  assert (Hsub : list_to_set l ⊆ dom fs).
  { intros p (i & -> & Hi%elem_of_seqZ)%elem_of_list_to_set%list_elem_of_fmap.
    apply path_exists_dom, Hall. lia. }
  apply subseteq_size in Hsub.
  rewrite size_list_to_set, size_dom in Hsub by exact Hnd.
  unfold l in Hsub. rewrite length_fmap, length_seqZ in Hsub. lia.
Qed.

End Probe.

Lemma generate_unique_filename_first fuel fs base_path filename extension p :
  generate_unique_filename fuel fs base_path filename extension = Some p ->
  exists k, p = candidate base_path filename extension k
    /\ path_exists fs p = false
    /\ forall j, (j < k)%nat ->
         path_exists fs (candidate base_path filename extension j) = true.
Proof.
  unfold generate_unique_filename.
  destruct (path_exists fs (base_path </> (filename +:+ extension))) eqn:H0; simpl.
  - intros (j & Hj & -> & Hp & Hlt)%probe_Some.
    exists (S (Z.to_nat j)). split; [|split].
    + unfold candidate. f_equal. lia.
    + exact Hp.
    + intros [|i] Hi; [exact H0|]. unfold candidate.
      replace (Z.of_nat (S i)) with (1 + Z.of_nat i) by lia. apply Hlt. lia.
  - intros [= <-]. exists 0%nat. repeat split; [exact H0 | lia].
Qed.

Lemma generate_unique_filename_terminates fuel fs base_path filename extension :
  (size fs < fuel)%nat ->
  is_Some (generate_unique_filename fuel fs base_path filename extension).
Proof.
  intros Hfuel. unfold generate_unique_filename.
  destruct (negb _); [eauto | apply probe_enough_fuel, Hfuel].
Qed.

Lemma generate_unique_filename_fresh fuel fs base_path filename extension p :
  generate_unique_filename fuel fs base_path filename extension = Some p ->
  p ∉ dom fs.
Proof.
  intros (k & -> & Hp & _)%generate_unique_filename_first.
  destruct k; intros Hin%path_exists_dom; unfold candidate, suffixed in *; congruence.
Qed.

Lemma allocation_run_fresh fs ps fs' :
  allocation_run fs ps fs' ->
  NoDup ps /\ (forall p, p ∈ ps -> p ∉ dom fs) /\ dom fs ⊆ dom fs'.
Proof.
  induction 1 as [fs | fs fs1 fs2 fuel b f e p ps Hgen Hsub Hin _ (IH1 & IH2 & IH3)].
  - split; [constructor|]. split; [|done]. intros p Hp. inversion Hp.
  - split; [|split].
    + constructor; [|exact IH1]. intros Hp. exact (IH2 _ Hp Hin).
    + intros q [-> | Hq]%elem_of_cons.
      * eapply generate_unique_filename_fresh, Hgen.
      * intros Hq'. apply (IH2 _ Hq). apply Hsub, Hq'.
    + etrans; eassumption.
Qed.

(** C6: with fuel beyond the number of existing paths the allocator returns
    the first of [base+ext], [base_1+ext], [base_2+ext], ... that does not
    exist; next to an existing [x.md] it yields [x_1.md], and [x_2.md] once
    that is created; the paths allocated in one run are pairwise distinct
    and none existed at the start. *)
Theorem C6_generate_unique_filename :
  (forall (fs : gmap Path node) base_path filename extension fuel,
      (size fs < fuel)%nat ->
      exists k,
        generate_unique_filename fuel fs base_path filename extension
        = Some (candidate base_path filename extension k)
        /\ path_exists fs (candidate base_path filename extension k) = false
        /\ forall j, (j < k)%nat ->
             path_exists fs (candidate base_path filename extension j) = true)
  /\ (forall (fs : gmap Path node) dir created fuel,
      (2 <= fuel)%nat ->
      is_Some (fs !! (dir </> "x.md")) ->
      fs !! (dir </> "x_1.md") = None ->
      fs !! (dir </> "x_2.md") = None ->
      generate_unique_filename fuel fs dir "x" ".md" = Some (dir </> "x_1.md")
      /\ generate_unique_filename fuel (<[dir </> "x_1.md" := created]> fs) dir "x" ".md"
         = Some (dir </> "x_2.md"))
  /\ (forall fs ps fs',
      allocation_run fs ps fs' ->
      NoDup ps /\ forall p, p ∈ ps -> p ∉ dom fs).
Proof.
  split; [|split].
  - intros fs base_path filename extension fuel Hfuel.
    destruct (generate_unique_filename_terminates fuel fs base_path filename extension Hfuel)
      as [p Hp].
    destruct (generate_unique_filename_first _ _ _ _ _ _ Hp) as (k & -> & Hk & Hlt).
    exists k. auto.
  - intros fs dir created fuel Hfuel H0 H1 H2.
    destruct fuel as [|[|fuel]]; [lia | lia |].
    unfold generate_unique_filename. simpl probe. unfold suffixed.
    change ("x" +:+ ".md") with "x.md".
    change ("x" +:+ "_" +:+ pretty 1 +:+ ".md") with "x_1.md".
    change ("x" +:+ "_" +:+ pretty (1 + 1) +:+ ".md") with "x_2.md".
    rewrite !path_exists_join.
    assert (Hne1 : dir </> "x_1.md" <> dir </> "x.md")
      by (intros H%path_join_inj; discriminate).
    assert (Hne2 : dir </> "x_1.md" <> dir </> "x_2.md")
      by (intros H%path_join_inj; discriminate).
    rewrite lookup_insert_eq, !lookup_insert_ne, H1, H2 by assumption.
    rewrite (bool_decide_eq_true_2 _ H0).
    rewrite !(bool_decide_eq_false_2 (is_Some None)) by (intros [? ?]; discriminate).
    rewrite (bool_decide_eq_true_2 (is_Some (Some created))) by eauto.
    auto.
  - intros fs ps fs' Hrun. destruct (allocation_run_fresh _ _ _ Hrun) as (H1 & H2 & _). auto.
Qed.

Lemma C6_generate_unique_filename_witness :
  (generate_unique_filename 2 {[ ["out"; "x.md"] := TextFile "first" ]} ["out"] "x" ".md"
   = Some ["out"; "x_1.md"]
   /\ generate_unique_filename 2
        (<[ ["out"; "x_1.md"] := TextFile "second" ]>
           {[ ["out"; "x.md"] := TextFile "first" ]})
        ["out"] "x" ".md"
      = Some ["out"; "x_2.md"])
  /\ NoDup [["out"; "x_1.md"]; ["out"; "x_2.md"]].
Proof.
  destruct C6_generate_unique_filename as (_ & Hx & Hrun).
  set (fs0 := ({[ ["out"; "x.md"] := TextFile "first" ]} : gmap Path node)).
  set (fs1 := <[ ["out"; "x_1.md"] := TextFile "second" ]> fs0).
  set (fs2 := <[ ["out"; "x_2.md"] := TextFile "third" ]> fs1).
  assert (H12 : generate_unique_filename 2 fs0 ["out"] "x" ".md" = Some ["out"; "x_1.md"]
                /\ generate_unique_filename 2 fs1 ["out"] "x" ".md" = Some ["out"; "x_2.md"]).
  { apply (Hx fs0 ["out"] (TextFile "second") 2%nat).
    - lia.
    - vm_compute. eauto.
    - vm_compute. reflexivity.
    - vm_compute. reflexivity. }
  split; [exact H12|].
  apply (Hrun fs0 [["out"; "x_1.md"]; ["out"; "x_2.md"]] fs2).
  destruct H12 as [H1 H2].
  eapply run_step; [exact H1 | | | eapply run_step; [exact H2 | | | apply run_done]].
  - unfold fs1. rewrite dom_insert_L. apply union_subseteq_r.
  - unfold fs1. rewrite dom_insert_L. apply elem_of_union_l, elem_of_singleton. reflexivity.
  - unfold fs2. rewrite dom_insert_L. apply union_subseteq_r.
  - unfold fs2. rewrite dom_insert_L. apply elem_of_union_l, elem_of_singleton. reflexivity.
Defined.

(** ** The writing rule *)

Lemma parent_join p n : parent (p </> n) = p.
Proof. apply removelast_last. Qed.

Lemma node_at_join fs p n : node_at fs (p </> n) = fs !! (p </> n).
Proof. unfold node_at, path_join. destruct p; reflexivity. Qed.

Lemma well_formed_parent fs p n :
  well_formed fs -> is_Some (fs !! (p </> n)) -> node_at fs p = Some Dir.
Proof.
  intros Hwf [x Hx]. specialize (Hwf _ _ Hx). simpl in Hwf.
  rewrite parent_join in Hwf. exact Hwf.
Qed.

Lemma well_formed_prefix fs p q :
  well_formed fs -> node_at fs (p ++ q) = Some Dir -> node_at fs p = Some Dir.
Proof.
  intros Hwf. induction q as [|n q IH] using rev_ind.
  - rewrite app_nil_r. auto.
  - rewrite app_assoc. change ((p ++ q) ++ [n]) with ((p ++ q) </> n).
    rewrite node_at_join. intros H. apply IH.
    eapply well_formed_parent; eauto.
Qed.

Lemma well_formed_fresh_child fs d n :
  well_formed fs -> fs !! d = None -> d <> [] -> fs !! (d </> n) = None.
Proof.
  intros Hwf Hd Hne. destruct (fs !! (d </> n)) eqn:H; [|reflexivity].
  assert (Hdir : node_at fs d = Some Dir) by (eapply well_formed_parent; eauto).
  destruct d; [congruence|]. simpl in Hdir. congruence.
Qed.

Lemma join_ne_nil p n : p </> n <> [].
Proof. unfold path_join. destruct p; discriminate. Qed.

Lemma join_ne_self p n : p </> n <> p.
Proof.
  unfold path_join. intros H. apply (f_equal length) in H.
  rewrite length_app in H. simpl in H. lia.
Qed.

Section Writing.
Variable E : Env.

Lemma unique_path_spec base_path filename extension w :
  exists k,
    unique_path base_path filename extension w
    = (Ok (candidate base_path filename extension k), w)
    /\ fs w !! candidate base_path filename extension k = None
    /\ forall j, (j < k)%nat ->
         is_Some (fs w !! candidate base_path filename extension j).
Proof.
  unfold unique_path.
  destruct (generate_unique_filename_terminates (S (size (fs w))) (fs w)
              base_path filename extension) as [p Hp]; [lia|].
  rewrite Hp.
  destruct (generate_unique_filename_first _ _ _ _ _ _ Hp) as (k & -> & Hk & Hlt).
  exists k. split; [reflexivity|]. split.
  - destruct k; unfold candidate, suffixed in *; rewrite path_exists_join in Hk;
      apply bool_decide_eq_false in Hk; apply eq_None_not_Some; exact Hk.
  - intros j Hj. specialize (Hlt j Hj).
    destruct j; unfold candidate, suffixed in *; rewrite path_exists_join in Hlt;
      apply bool_decide_eq_true in Hlt; exact Hlt.
Qed.

Lemma candidate_parent base_path filename extension k :
  exists n, candidate base_path filename extension k = base_path </> n.
Proof. destruct k; unfold candidate, suffixed; eauto. Qed.

(** creating a fresh directory directly below an existing one *)
Lemma mkdir_from_fresh todo : forall done name w,
  well_formed (fs w) ->
  node_at (fs w) (done ++ todo) = Some Dir ->
  fs w !! ((done ++ todo) </> name) = None ->
  os_refuses E ((done ++ todo) </> name) = None ->
  mkdir_from E done (todo ++ [name]) w
  = (Ok tt, set_fs w (<[(done ++ todo) </> name := Dir]> (fs w))).
Proof.
  induction todo as [|t todo IH]; intros done name w Hwf Hdir Hnone Hos.
  - rewrite app_nil_r in *. simpl. rewrite Hnone, Hos. reflexivity.
  - simpl.
    assert (Ht : fs w !! (done </> t) = Some Dir).
    { rewrite <- node_at_join. apply (well_formed_prefix _ _ todo Hwf).
      unfold path_join. rewrite <- app_assoc. exact Hdir. }
    rewrite Ht.
    replace (done ++ t :: todo) with ((done </> t) ++ todo) in *
      by (unfold path_join; rewrite <- app_assoc; reflexivity).
    apply IH; assumption.
Qed.

Lemma mkdir_fresh out name w :
  well_formed (fs w) ->
  node_at (fs w) out = Some Dir ->
  fs w !! (out </> name) = None ->
  os_refuses E (out </> name) = None ->
  mkdir E (out </> name) w = (Ok tt, set_fs w (<[out </> name := Dir]> (fs w))).
Proof.
  intros. unfold mkdir. change (out </> name) with (out ++ [name]) at 1.
  apply (mkdir_from_fresh out [] name w); assumption.
Qed.

Lemma write_file_ok p n content w :
  os_refuses E (p </> n) = None ->
  fs w !! (p </> n) <> Some Dir ->
  node_at (fs w) p = Some Dir ->
  write_file E (p </> n) content w
  = (Ok tt, set_fs w (<[p </> n := content]> (fs w))).
Proof.
  intros Hos Hnd Hp. unfold write_file. rewrite Hos, node_at_join, parent_join, Hp.
  destruct (fs w !! (p </> n)) as [[]|]; congruence.
Qed.

Lemma write_attachments_ok d atts : forall w,
  fs w !! d = Some Dir ->
  d <> [] ->
  flat_below d (fs w) ->
  Forall (fun att => os_refuses E (d </> att.1) = None) atts ->
  write_attachments E d atts w = (Ok tt, set_fs w (with_attachments d atts (fs w))).
Proof.
  induction atts as [|[n data] atts IH]; intros w Hd Hne Hflat Hos.
  - simpl. unfold ret, set_fs. destruct w; reflexivity.
  - inversion Hos as [|? ? Hos1 Hos']; subst. simpl in Hos1.
    simpl write_attachments. unfold bindM, write_bytes.
    rewrite write_file_ok; [|exact Hos1|apply Hflat|destruct d; [done|exact Hd]].
    rewrite IH; simpl.
    + reflexivity.
    + rewrite lookup_insert_ne by (apply join_ne_self). exact Hd.
    + exact Hne.
    + intros m. destruct (decide (d </> n = d </> m)) as [-> | Hnm].
      * rewrite lookup_insert_eq. discriminate.
      * rewrite lookup_insert_ne by exact Hnm. apply Hflat.
    + exact Hos'.
Qed.

End Writing.

Lemma with_attachments_cons d n data atts fs :
  with_attachments d ((n, data) :: atts) fs
  = with_attachments d atts (<[d </> n := BinFile data]> fs).
Proof. reflexivity. Qed.

Lemma with_attachments_other d atts : forall fs p,
  (forall n, p <> d </> n) -> with_attachments d atts fs !! p = fs !! p.
Proof.
  induction atts as [|[n data] atts IH]; intros fs p Hp; [reflexivity|].
  rewrite with_attachments_cons, IH by exact Hp.
  apply lookup_insert_ne. intros H. exact (Hp n (eq_sym H)).
Qed.

Lemma with_attachments_keeps d atts n : forall fs,
  n ∉ atts.*1 -> with_attachments d atts fs !! (d </> n) = fs !! (d </> n).
Proof.
  induction atts as [|[m data] atts IH]; intros fs Hn; [reflexivity|].
  simpl in Hn. apply not_elem_of_cons in Hn as [Hne Hn].
  rewrite with_attachments_cons, IH by exact Hn.
  apply lookup_insert_ne. intros H%path_join_inj. congruence.
Qed.

Lemma with_attachments_written d atts n : forall fs,
  n ∈ atts.*1 ->
  exists data, (n, data) ∈ atts
    /\ with_attachments d atts fs !! (d </> n) = Some (BinFile data).
Proof.
  induction atts as [|[m data] atts IH]; intros fs Hn; [inversion Hn|].
  simpl in Hn. destruct (decide (n ∈ atts.*1)) as [Hin | Hnin].
  - destruct (IH (<[d </> m := BinFile data]> fs) Hin) as (data' & Hd & Hl).
    exists data'. split; [right; exact Hd | rewrite with_attachments_cons; exact Hl].
  - apply elem_of_cons in Hn as [-> | Hn]; [|contradiction].
    exists data. split; [left|].
    rewrite with_attachments_cons, with_attachments_keeps by exact Hnin.
    apply lookup_insert_eq.
Qed.

Lemma fs_set_fs w x : fs (set_fs w x) = x.
Proof. reflexivity. Qed.

Lemma with_attachments_lookup d atts : forall fs m,
  with_attachments d atts fs !! (d </> m)
  = match last_named m atts with
    | Some data => Some (BinFile data)
    | None => fs !! (d </> m)
    end.
Proof.
  induction atts as [|[n data] atts IH]; intros fs m; [reflexivity|].
  rewrite with_attachments_cons, IH. cbn [last_named].
  destruct (last_named m atts); [reflexivity|].
  destruct (String.eqb_spec n m) as [-> | Hne].
  - apply lookup_insert_eq.
  - apply lookup_insert_ne. intros H%path_join_inj. congruence.
Qed.

(** the writing rule of lines 246-258.  In a well-formed file system whose
    output root is a directory, an email with attachments gets a fresh
    subdirectory of the root, named by the allocator; when the operating
    system refuses none of the paths, the directory is created and holds
    one file for each attachment name, with the bytes of the last
    attachment of that name, and the document under [base.md] unless an
    attachment has that name; nothing else changes.  An email without
    attachments gets a fresh [.md] path directly below the root, and that
    text file is the only change. *)
Lemma write_email_rule (E : Env) (output_dir : Path) (filename_base md_content : string)
    (w : World) :
  node_at (fs w) output_dir = Some Dir ->
  (* at least one attachment *)
  (forall att atts, well_formed (fs w) ->
     exists k name,
       candidate output_dir filename_base EmptyString k = output_dir </> name
       /\ fs w !! (output_dir </> name) = None
       /\ (forall j, (j < k)%nat ->
             is_Some (fs w !! candidate output_dir filename_base EmptyString j))
       /\ (os_refuses E (output_dir </> name) = None ->
           os_refuses E (output_dir </> name </> (filename_base +:+ ".md")) = None ->
           Forall (fun a => os_refuses E (output_dir </> name </> a.1) = None) (att :: atts) ->
           exists w',
             write_email E output_dir (filename_base, md_content, att :: atts) w = (Ok tt, w')
             /\ fs w' !! (output_dir </> name) = Some Dir
             /\ (forall m,
                   fs w' !! (output_dir </> name </> m)
                   = match last_named m (att :: atts) with
                     | Some data => Some (BinFile data)
                     | None =>
                         if String.eqb m (filename_base +:+ ".md")
                         then Some (TextFile md_content)
                         else None
                     end)
             /\ (forall p, p <> output_dir </> name ->
                   (forall n, p <> output_dir </> name </> n) ->
                   fs w' !! p = fs w !! p)))
  (* no attachment *)
  /\ (exists k name,
       candidate output_dir filename_base ".md" k = output_dir </> name
       /\ fs w !! (output_dir </> name) = None
       /\ (forall j, (j < k)%nat ->
             is_Some (fs w !! candidate output_dir filename_base ".md" j))
       /\ (os_refuses E (output_dir </> name) = None ->
           write_email E output_dir (filename_base, md_content, []) w
           = (Ok tt, set_fs w (<[output_dir </> name := TextFile md_content]> (fs w))))).
Proof.
  intros Hout. split.
  - intros att atts Hwf.
    destruct (unique_path_spec output_dir filename_base EmptyString w) as (k & Hu & Hnone & Hlt).
    destruct (candidate_parent output_dir filename_base EmptyString k) as [name Hname].
    rewrite Hname in *. exists k, name. split; [exact Hname|]. split; [exact Hnone|].
    split; [exact Hlt|]. intros Hos_d Hos_md Hos_atts.
    set (d := output_dir </> name) in *.
    set (md_path := d </> (filename_base +:+ ".md")) in *.
    set (fs1 := <[d := Dir]> (fs w)).
    set (fs2 := <[md_path := TextFile md_content]> fs1).
    assert (Hfresh : forall n, fs w !! (d </> n) = None).
    { intros n. apply well_formed_fresh_child; [exact Hwf | exact Hnone | apply join_ne_nil]. }
    assert (Hd2 : fs2 !! d = Some Dir).
    { unfold fs2, fs1. rewrite lookup_insert_ne by apply join_ne_self. apply lookup_insert_eq. }
    assert (Hflat : flat_below d fs2).
    { intros n. unfold fs2, fs1. destruct (decide (md_path = d </> n)) as [<- | Hne].
      - rewrite lookup_insert_eq. discriminate.
      - rewrite lookup_insert_ne by exact Hne.
        rewrite lookup_insert_ne by (apply not_eq_sym, join_ne_self).
        rewrite Hfresh. discriminate. }
    exists (set_fs w (with_attachments d (att :: atts) fs2)).
    split; [|split; [|split]].
    + unfold write_email. cbn [fst snd]. unfold bindM at 1. rewrite Hu.
      unfold bindM at 1. fold d. unfold d at 1. rewrite mkdir_fresh by assumption. fold d fs1.
      unfold bindM at 1, write_text. fold md_path. unfold md_path at 1.
      rewrite write_file_ok; cycle 1.
      { exact Hos_md. }
      { simpl. fold fs1. unfold fs1. rewrite lookup_insert_ne by (apply not_eq_sym, join_ne_self).
        rewrite Hfresh. discriminate. }
      { simpl. unfold d. rewrite node_at_join. apply lookup_insert_eq. }
      fold md_path. simpl fs. fold fs1 fs2.
      rewrite write_attachments_ok; simpl; try assumption.
      * reflexivity.
      * apply join_ne_nil.
    + rewrite fs_set_fs.
      rewrite with_attachments_other by (intros n; apply not_eq_sym, join_ne_self).
      exact Hd2.
    + intros m. rewrite fs_set_fs, with_attachments_lookup.
      destruct (last_named m (att :: atts)); [reflexivity|].
      unfold fs2, md_path, fs1.
      destruct (String.eqb_spec m (filename_base +:+ ".md")) as [-> | Hne].
      * apply lookup_insert_eq.
      * rewrite lookup_insert_ne by (intros H%path_join_inj; congruence).
        rewrite lookup_insert_ne by (apply not_eq_sym, join_ne_self).
        apply Hfresh.
    + intros p Hp Hpn. rewrite fs_set_fs, with_attachments_other by exact Hpn.
      unfold fs2, fs1. rewrite !lookup_insert_ne; [reflexivity | congruence | apply not_eq_sym, Hpn].
  - destruct (unique_path_spec output_dir filename_base ".md" w) as (k & Hu & Hnone & Hlt).
    destruct (candidate_parent output_dir filename_base ".md" k) as [name Hname].
    rewrite Hname in *. exists k, name. split; [exact Hname|]. split; [exact Hnone|].
    split; [exact Hlt|]. intros Hos.
    unfold write_email. cbn [fst snd]. unfold bindM. rewrite Hu. unfold write_text.
    apply write_file_ok; [exact Hos | rewrite Hnone; discriminate | exact Hout].
Qed.

(** ** Worked inputs *)

Example sample_mail_renders :
  create_email_markdown quiet_env (sample_mail "Hi" [])
  = Ok ("2024-05-17_Ann Lee_Hi",
        header "Hi" "Ann Lee" EmptyString EmptyString "2024-05-17 09:30:00"
        +:+ "## Content" +:+ nl +:+ nl +:+ "hello",
        []).
Proof. vm_compute. reflexivity. Qed.

(** C2 as stated fails: the second attachment cannot be saved, and the
    first one stays in the list. *)
Lemma C2_counterexample :
  let item := sample_mail "Hi" [Ok (file_attachment "a.txt" [Byte.x41]);
                                Ok (unreadable_attachment "b.bin")] in
  is_ok (extract_attachments (Attachments item)).2 = false
  /\ match create_email_markdown quiet_env item with
     | Ok r => r.2 = [("a.txt", [Byte.x41])]
     | Exc _ => False
     end.
Proof. vm_compute. split; reflexivity. Qed.

Lemma C2_attachment_failure_witness :
  let item := sample_mail "Hi" [Ok (file_attachment "a.txt" [Byte.x41]);
                                Ok (unreadable_attachment "b.bin");
                                Ok (file_attachment "c.txt" [Byte.x42])] in
  is_ok (extract_attachments (Attachments item)).2 = false
  /\ exists r, create_email_markdown quiet_env item = Ok r.
Proof.
  intros item.
  destruct (C2_attachment_failure quiet_env item
              [Ok (file_attachment "a.txt" [Byte.x41])]
              (Ok (unreadable_attachment "b.bin"))
              [Ok (file_attachment "c.txt" [Byte.x42])]) as (H1 & H2 & _).
  - reflexivity.
  - repeat constructor.
  - reflexivity.
  - split; assumption.
Defined.

Lemma well_formed_out_dir : well_formed out_dir.
Proof.
  unfold well_formed, out_dir. apply map_Forall_singleton. reflexivity.
Qed.

(** C9: the writing rule is broken where names collide inside the
    subdirectory.  Lines 253-255 write every attachment to
    [email_folder / att_name] as it comes: of two attachments that the
    sanitizer gives one name only the second is left, so the directory
    holds two files for an email with two attachments, and an attachment
    with the name of the document replaces the document written at line
    251.  For the outputs of different emails lines 247 and 257 allocate a
    unique name. *)
Theorem C9_same_name_attachments :
  let d := ["out"; "2024-05-17_Ann Lee_Hi"] in
  let twins := process_item quiet_env ["out"] (Ok twin_mail) (empty_world out_dir) in
  let namesake := process_item quiet_env ["out"] (Ok namesake_mail) (empty_world out_dir) in
  match create_email_markdown quiet_env twin_mail with
  | Ok r => r.1.1 = "2024-05-17_Ann Lee_Hi"
            /\ r.2 = [("a_b.txt", [Byte.x41]); ("a_b.txt", [Byte.x42])]
  | Exc _ => False
  end
  /\ twins.1 = Ok true
  /\ fs twins.2 !! d = Some Dir
  /\ fs twins.2 !! (d </> "a_b.txt") = Some (BinFile [Byte.x42])
  /\ is_Some (fs twins.2 !! (d </> "2024-05-17_Ann Lee_Hi.md"))
  /\ size (filter (fun entry => parent entry.1 = d) (fs twins.2)) = 2%nat
  /\ namesake.1 = Ok true
  /\ fs namesake.2 !! (d </> "2024-05-17_Ann Lee_Hi.md") = Some (BinFile [Byte.x41])
  /\ size (filter (fun entry => parent entry.1 = d) (fs namesake.2)) = 1%nat.
Proof. vm_compute. repeat split; eauto. Qed.

Example write_email_without_attachments :
  (write_email quiet_env ["out"] ("m", "text", []) (empty_world out_dir)).2
  = empty_world (<[ ["out"; "m.md"] := TextFile "text" ]> out_dir).
Proof. vm_compute. reflexivity. Qed.

Example write_email_with_attachments :
  (write_email quiet_env ["out"] ("m", "text", [("a.txt", [Byte.x41]); ("b.txt", [])])
               (empty_world (<[ ["out"; "m"] := TextFile "taken" ]> out_dir))).2
  = empty_world
      (<[ ["out"; "m_1"; "b.txt"] := BinFile [] ]>
        (<[ ["out"; "m_1"; "a.txt"] := BinFile [Byte.x41] ]>
          (<[ ["out"; "m_1"; "m.md"] := TextFile "text" ]>
            (<[ ["out"; "m_1"] := Dir ]>
              (<[ ["out"; "m"] := TextFile "taken" ]> out_dir))))).
Proof. vm_compute. reflexivity. Qed.

(** ** Per-item failures *)

Lemma write_attachments_fails E d good n data rest msg : forall w,
  fs w !! d = Some Dir ->
  d <> [] ->
  flat_below d (fs w) ->
  Forall (fun att => os_refuses E (d </> att.1) = None) good ->
  os_refuses E (d </> n) = Some msg ->
  write_attachments E d (good ++ (n, data) :: rest) w
  = (Exc msg, set_fs w (with_attachments d good (fs w))).
Proof.
  induction good as [|[m bytes] good IH]; intros w Hd Hne Hflat Hgood Hos.
  - simpl. unfold bindM, write_bytes, write_file. rewrite Hos.
    unfold set_fs. destruct w; reflexivity.
  - inversion Hgood as [|? ? Hos1 Hgood']; subst. simpl in Hos1.
    simpl app. simpl write_attachments. unfold bindM, write_bytes.
    rewrite write_file_ok; [|exact Hos1|apply Hflat|destruct d; [done|exact Hd]].
    rewrite IH; simpl.
    + reflexivity.
    + rewrite lookup_insert_ne by (apply join_ne_self). exact Hd.
    + exact Hne.
    + intros k. destruct (decide (d </> m = d </> k)) as [-> | Hmk].
      * rewrite lookup_insert_eq. discriminate.
      * rewrite lookup_insert_ne by exact Hmk. apply Hflat.
    + exact Hgood'.
    + exact Hos.
Qed.


Lemma write_email_nonempty E output_dir filename_base md_content atts :
  atts <> [] ->
  write_email E output_dir (filename_base, md_content, atts)
  = (let! email_folder := unique_path output_dir filename_base EmptyString in
     let! _ := mkdir E email_folder in
     let! _ := write_text E (email_folder </> (filename_base +:+ ".md")) md_content in
     write_attachments E email_folder atts).
Proof. destruct atts; [congruence | reflexivity]. Qed.

(** C10: when the write of an attachment is refused after the directory,
    the [.md] file and the earlier attachments were written, the handler of
    lines 262-264 catches the failure: it writes the warning, advances the
    bar, and the loop goes on with the next item, [processed] being as it
    was.  (When the console refuses the warning, that exception leaves the
    loop in place of the failure, [processed] again being as it was.)  In
    both cases the directory holds what was written before the failure:
    the [.md] file and the earlier attachments, and nothing of the refused
    attachment or of those after it. *)
Theorem C10_partial_write_remains (E : Env) (output_dir : Path) (mail_item : MailItem)
    (filename_base md_content : string)
    (good : list (string * list Byte.byte)) (n : string) (data : list Byte.byte)
    (rest : list (string * list Byte.byte)) (msg : string)
    (email_folder : Path) (more : list (result MailItem)) (processed : Z) (w : World) :
  Class mail_item = Ok 43 ->
  create_email_markdown E mail_item
  = Ok (filename_base, md_content, good ++ (n, data) :: rest) ->
  well_formed (fs w) ->
  node_at (fs w) output_dir = Some Dir ->
  unique_path output_dir filename_base EmptyString w = (Ok email_folder, w) ->
  os_refuses E email_folder = None ->
  os_refuses E (email_folder </> (filename_base +:+ ".md")) = None ->
  Forall (fun att => os_refuses E (email_folder </> att.1) = None) good ->
  os_refuses E (email_folder </> n) = Some msg ->
  filename_base +:+ ".md" ∉ good.*1 ->
  exists w',
    match console_rejects E ("Warning: Failed to process item: " +:+ msg) with
    | None =>
        items_loop E output_dir (Ok mail_item :: more) processed w
        = items_loop E output_dir more processed w'
        /\ pbar_n w' = pbar_n w + 1
        /\ console w' = console w ++ ["Warning: Failed to process item: " +:+ msg]
    | Some e =>
        items_loop E output_dir (Ok mail_item :: more) processed w
        = ((processed, Exc e), w')
        /\ pbar_n w' = pbar_n w
        /\ console w' = console w
    end
    /\ fs w !! email_folder = None
    /\ fs w' !! email_folder = Some Dir
    /\ fs w' !! (email_folder </> (filename_base +:+ ".md")) = Some (TextFile md_content)
    /\ (forall m, m ∈ good.*1 ->
          exists bytes, (m, bytes) ∈ good
            /\ fs w' !! (email_folder </> m) = Some (BinFile bytes))
    /\ (forall m,
          fs w' !! (email_folder </> m)
          = match last_named m good with
            | Some bytes => Some (BinFile bytes)
            | None =>
                if String.eqb m (filename_base +:+ ".md")
                then Some (TextFile md_content)
                else None
            end).
Proof.
  intros Hclass Hrender Hwf Hout Hu Hos_d Hos_md Hgood Hbad Hmd.
  destruct (unique_path_spec output_dir filename_base EmptyString w) as (k & Hu' & Hnone & _).
  destruct (candidate_parent output_dir filename_base EmptyString k) as [name Hname].
  rewrite Hname, Hu in Hu'. injection Hu' as ->. rewrite Hname in Hnone. clear Hname k.
  set (d := output_dir </> name) in *.
  set (md_path := d </> (filename_base +:+ ".md")) in *.
  set (fs1 := <[d := Dir]> (fs w)).
  set (fs2 := <[md_path := TextFile md_content]> fs1).
  assert (Hfresh : forall m, fs w !! (d </> m) = None).
  { intros m. apply well_formed_fresh_child; [exact Hwf | exact Hnone | apply join_ne_nil]. }
  assert (Hd2 : fs2 !! d = Some Dir).
  { unfold fs2, fs1. rewrite lookup_insert_ne by apply join_ne_self. apply lookup_insert_eq. }
  assert (Hflat : flat_below d fs2).
  { intros m. unfold fs2, fs1. destruct (decide (md_path = d </> m)) as [<- | Hne].
    - rewrite lookup_insert_eq. discriminate.
    - rewrite lookup_insert_ne by exact Hne.
      rewrite lookup_insert_ne by (apply not_eq_sym, join_ne_self).
      rewrite Hfresh. discriminate. }
  assert (Hitem : process_item E output_dir (Ok mail_item) w
                  = (Exc msg, set_fs w (with_attachments d good fs2))).
  { assert (Hwrite : write_email E output_dir
                       (filename_base, md_content, good ++ (n, data) :: rest) w
                     = (Exc msg, set_fs w (with_attachments d good fs2))).
    { rewrite write_email_nonempty by (destruct good; discriminate).
      unfold bindM at 1. rewrite Hu.
      unfold bindM at 1. unfold d at 1. rewrite mkdir_fresh by assumption. fold d fs1.
      unfold bindM at 1, write_text. fold md_path. unfold md_path at 1.
      rewrite write_file_ok; cycle 1.
      { exact Hos_md. }
      { rewrite fs_set_fs. unfold fs1.
        rewrite lookup_insert_ne by (apply not_eq_sym, join_ne_self).
        rewrite Hfresh. discriminate. }
      { rewrite fs_set_fs. unfold d. rewrite node_at_join. apply lookup_insert_eq. }
      fold md_path. rewrite fs_set_fs. fold fs2.
      rewrite (write_attachments_fails E d good n data rest msg); simpl; try assumption.
      - reflexivity.
      - apply join_ne_nil. }
    unfold process_item, bindM, lift. rewrite Hclass.
    change (43 =? 43) with true. cbv beta iota. rewrite Hrender, Hwrite. reflexivity. }
  set (w1 := set_fs w (with_attachments d good fs2)) in *.
  assert (Hfiles : forall w', fs w' = fs w1 ->
    fs w !! d = None
    /\ fs w' !! d = Some Dir
    /\ fs w' !! md_path = Some (TextFile md_content)
    /\ (forall m, m ∈ good.*1 ->
          exists bytes, (m, bytes) ∈ good /\ fs w' !! (d </> m) = Some (BinFile bytes))
    /\ (forall m,
          fs w' !! (d </> m)
          = match last_named m good with
            | Some bytes => Some (BinFile bytes)
            | None =>
                if String.eqb m (filename_base +:+ ".md")
                then Some (TextFile md_content)
                else None
            end)).
  { intros w' ->. unfold w1. rewrite fs_set_fs. split; [exact Hnone|].
    split; [|split; [|split]].
    - rewrite with_attachments_other by (intros m; apply not_eq_sym, join_ne_self). exact Hd2.
    - unfold md_path. rewrite with_attachments_keeps by exact Hmd. apply lookup_insert_eq.
    - intros m Hm. apply with_attachments_written, Hm.
    - intros m. rewrite with_attachments_lookup.
      destruct (last_named m good); [reflexivity|].
      unfold fs2, md_path, fs1.
      destruct (String.eqb_spec m (filename_base +:+ ".md")) as [-> | Hne].
      + apply lookup_insert_eq.
      + rewrite lookup_insert_ne by (intros H%path_join_inj; congruence).
        rewrite lookup_insert_ne by (apply not_eq_sym, join_ne_self).
        apply Hfresh. }
  destruct (console_rejects E ("Warning: Failed to process item: " +:+ msg)) as [e|] eqn:Hc.
  - exists w1. split; [|apply Hfiles; reflexivity].
    cbn [items_loop]. rewrite Hitem. unfold item_failed, bindM, pbar_write. rewrite Hc.
    split; [reflexivity | split; reflexivity].
  - exists {| fs := fs w1; pbar_total := pbar_total w1; pbar_n := pbar_n w1 + 1;
              console := console w1 ++ ["Warning: Failed to process item: " +:+ msg] |}.
    split; [|apply Hfiles; reflexivity].
    cbn [items_loop]. rewrite Hitem. unfold item_failed, bindM, pbar_write, pbar_update.
    rewrite Hc. split; [reflexivity | split; reflexivity].
Qed.

Lemma C10_partial_write_remains_witness :
  let E := sample_env (refuse_path ["out"; "2024-05-17_Ann Lee_Hi"; "b.bin"] "disk full")
                      accept_all (Exc "no mail client") in
  let item := sample_mail "Hi" [Ok (file_attachment "a.txt" [Byte.x41]);
                                Ok (file_attachment "b.bin" [Byte.x42])] in
  exists w',
    items_loop E ["out"] [Ok item] 0 (empty_world out_dir) = ((0, Ok tt), w')
    /\ pbar_n w' = 1
    /\ console w' = ["Warning: Failed to process item: disk full"]
    /\ fs (empty_world out_dir) !! ["out"; "2024-05-17_Ann Lee_Hi"] = None
    /\ fs w' !! ["out"; "2024-05-17_Ann Lee_Hi"] = Some Dir
    /\ is_Some (fs w' !! ["out"; "2024-05-17_Ann Lee_Hi"; "2024-05-17_Ann Lee_Hi.md"])
    /\ fs w' !! ["out"; "2024-05-17_Ann Lee_Hi"; "a.txt"] = Some (BinFile [Byte.x41])
    /\ fs w' !! ["out"; "2024-05-17_Ann Lee_Hi"; "b.bin"] = None.
Proof.
  intros E item.
  destruct (C10_partial_write_remains E ["out"] item "2024-05-17_Ann Lee_Hi"
               (header "Hi" "Ann Lee" EmptyString EmptyString "2024-05-17 09:30:00"
                +:+ "## Attachments" +:+ nl +:+ nl
                +:+ "- [a.txt](a.txt)" +:+ nl +:+ "- [b.bin](b.bin)" +:+ nl +:+ nl
                +:+ "## Content" +:+ nl +:+ nl +:+ "hello")
               [("a.txt", [Byte.x41])] "b.bin" [Byte.x42] [] "disk full"
               ["out"; "2024-05-17_Ann Lee_Hi"] [] 0 (empty_world out_dir))
    as (w' & Hloop & H2 & H3 & H4 & _ & H6).
  - reflexivity.
  - vm_compute. reflexivity.
  - apply well_formed_out_dir.
  - reflexivity.
  - vm_compute. reflexivity.
  - reflexivity.
  - reflexivity.
  - repeat constructor.
  - reflexivity.
  - simpl. intros [H|H]%elem_of_cons; [vm_compute in H; discriminate | inversion H].
  - pose proof (Hloop
      : items_loop E ["out"] [Ok item] 0 (empty_world out_dir) = ((0, Ok tt), w')
        /\ pbar_n w' = 0 + 1
        /\ console w' = [] ++ ["Warning: Failed to process item: disk full"])
      as (L1 & L2 & L3).
    exists w'. split; [exact L1|]. split; [exact L2|]. split; [exact L3|].
    split; [exact H2|]. split; [exact H3|]. split.
    { change (["out"; "2024-05-17_Ann Lee_Hi"; "2024-05-17_Ann Lee_Hi.md"])
        with (["out"; "2024-05-17_Ann Lee_Hi"] </> ("2024-05-17_Ann Lee_Hi" +:+ ".md")).
      rewrite H4. eauto. }
    split; [exact (H6 "a.txt") | exact (H6 "b.bin")].
Defined.

Example partial_write_run :
  let E := sample_env (refuse_path ["out"; "2024-05-17_Ann Lee_Hi"; "b.bin"] "disk full")
                      accept_all (Exc "no mail client") in
  let item := sample_mail "Hi" [Ok (file_attachment "a.txt" [Byte.x41]);
                                Ok (file_attachment "b.bin" [Byte.x42])] in
  let result := items_loop E ["out"] [Ok item] 0 (empty_world out_dir) in
  result.1 = (0, Ok tt)
  /\ fs result.2 !! ["out"; "2024-05-17_Ann Lee_Hi"] = Some Dir
  /\ fs result.2 !! ["out"; "2024-05-17_Ann Lee_Hi"; "a.txt"] = Some (BinFile [Byte.x41])
  /\ fs result.2 !! ["out"; "2024-05-17_Ann Lee_Hi"; "b.bin"] = None
  /\ pbar_n result.2 = 1
  /\ console result.2 = ["Warning: Failed to process item: disk full"].
Proof. vm_compute. repeat split. Qed.

(** ** Archive results *)

(** C3 (amended): a result that carries an error has [processed_count = 0];
    a count other than 0 comes without an error. *)
Theorem C3_error_discards_count (E : Env) (pst_path : Path) (output_dir : option Path)
    (worker_id : Z) (w : World) :
  match process_pst_file E pst_path output_dir worker_id w with
  | (Ok (_, processed_count, error), _) => error = None \/ processed_count = 0
  | (Exc _, _) => True
  end.
Proof.
  unfold process_pst_file.
  destruct (negb (path_exists (fs w) pst_path)); [right; reflexivity|].
  unfold bindM at 1.
  destruct (mkdir E (default (parent pst_path) output_dir) w) as [[[]|e] w1]; [|exact I].
  unfold try_exceptM.
  match goal with |- match (match ?body w1 with _ => _ end) with _ => _ end =>
    destruct (body w1) as [[[[name cnt] err]|e] w2] eqn:Hbody
  end; [|right; reflexivity].
  revert Hbody. unfold bindM, lift, ret.
  destruct (Dispatch_GetNamespace E) as [ns|]; [|discriminate].
  destruct (AddStore ns pst_path) as [[slots|]|]; [|discriminate..].
  destruct (find_store pst_path slots) as [found|]; [|discriminate].
  assert (Hcase : forall pst_folder : option Folder,
    match pst_folder with
    | Some f =>
        let (r, w') := tqdm (count_emails_in_folder f) w1 in
        match r with
        | Ok _ =>
            let (r0, w'0) := process_folder E f (default (parent pst_path) output_dir) w' in
            match r0 with
            | Ok a => (Ok (name_of pst_path, a, None), w'0)
            | Exc e => (Exc e, w'0)
            end
        | Exc e => (Exc e, w')
        end
    | None => (Ok (name_of pst_path, 0, Some "Could not locate PST folder in Outlook"), w1)
    end = (Ok (name, cnt, err), w2) -> err = None \/ cnt = 0).
  { intros [f|]; [|intros [= <- <- <- <-]; right; reflexivity].
    unfold tqdm. destruct (process_folder E f _ _) as [[a|] w3]; [|discriminate].
    intros [= <- <- <- <-]. left; reflexivity. }
  destruct found as [f|].
  - intros H. apply (Hcase (Some f)). exact H.
  - destruct (last_folder slots) as [pst_folder|]; [|discriminate].
    intros H. destruct pst_folder as [f|]; [apply (Hcase (Some f)) | apply (Hcase None)];
      exact H.
Qed.

(** C3 as stated fails: one mail is written and counted, the next item
    and the console fail, and the session reports 0 with the error. *)
Lemma C3_counterexample :
  let slots := [Ok (sample_mail "Hi" []); Exc "item unreadable"] in
  let walk := items_loop late_failure_env ["data"] slots 0 archive_world in
  let session := process_pst_file late_failure_env ["data"; "mail.pst"] None 0 archive_world in
  walk.1 = (1, Exc "console closed")
  /\ path_exists (fs walk.2) ["data"; "2024-05-17_Ann Lee_Hi.md"] = true
  /\ session.1 = Ok ("mail.pst", 0, Some "console closed")
  /\ path_exists (fs session.2) ["data"; "2024-05-17_Ann Lee_Hi.md"] = true.
Proof. vm_compute. repeat split. Qed.

(** ** The worker count *)

(** C4 (amended): the worker count is [min(workers, len(pst_files))]; for
    [workers >= 1] and a non-empty input it is at least 1 and an executor
    is chosen. *)
Theorem C4_num_workers (workers : Z) (pst_files : list Path) :
  num_workers workers pst_files = Z.min workers (Z.of_nat (length pst_files))
  /\ (1 <= workers -> pst_files <> [] ->
      1 <= num_workers workers pst_files
      /\ exists e, choose_executor workers pst_files = Ok e).
Proof.
  split; [reflexivity|]. intros Hw Hne.
  assert (Hlen : 1 <= Z.of_nat (length pst_files)).
  { destruct pst_files; [congruence | simpl; lia]. }
  assert (Hn : 1 <= num_workers workers pst_files) by (unfold num_workers; lia).
  split; [exact Hn|]. unfold choose_executor, ThreadPoolExecutor.
  destruct (num_workers workers pst_files =? 1); [eauto|].
  destruct (num_workers workers pst_files <=? 0) eqn:H0; [lia | eauto].
Qed.

Lemma C4_num_workers_witness :
  1 <= num_workers 4 [["a.pst"]; ["b.pst"]]
  /\ exists e, choose_executor 4 [["a.pst"]; ["b.pst"]] = Ok e.
Proof.
  apply (C4_num_workers 4 [["a.pst"]; ["b.pst"]]); [lia | discriminate].
Defined.

(** C4 as stated fails for [workers = 0]: the count is 0 and the pool
    constructor raises. *)
Lemma C4_counterexample :
  num_workers 0 [["a.pst"]] = 0
  /\ 0 < 1
  /\ choose_executor 0 [["a.pst"]] = Exc "max_workers must be greater than 0".
Proof. repeat split. Qed.

(** * Further properties of the code *)

(** ** The sanitizer's output and its fixed points *)

Lemma sanitize_filename_canonical name max_length :
  canonical (sanitize_filename name max_length).
Proof.
  unfold sanitize_filename.
  set (t := strip ". _" (re_sub_runs "_" (re_sub_class invalid_chars "_" name))).
  assert (Ht : canonical t) by apply canonical_strip.
  destruct (len t >? max_length).
  - unfold slice_to.
    destruct (0 <=? max_length);
      (destruct (truthy _); [apply canonical_truncate, Ht | apply canonical_unnamed]).
  - destruct (truthy t); [exact Ht | apply canonical_unnamed].
Qed.

Lemma lstrip_if_same_length p s :
  String.length (lstrip_if p s) = String.length s -> lstrip_if p s = s.
Proof.
  destruct s as [|c r]; simpl; [reflexivity|].
  destruct (p c); [|reflexivity].
  intros H. assert (Hle : (String.length (lstrip_if p r) <= String.length r)%nat).
  { clear H. induction r as [|d r IH]; simpl; [lia|]. destruct (p d); simpl; lia. }
  lia.
Qed.

Lemma strip_fixed chars s :
  strip chars s = s <->
  lstrip_if (fun c => char_in c chars) s = s /\ rstrip_if (fun c => char_in c chars) s = s.
Proof.
  unfold strip, rstrip. split.
  - intros H.
    assert (Hl : lstrip_if (fun c => char_in c chars) s = s).
    { apply lstrip_if_same_length.
      pose proof (length_rstrip_if (fun c => char_in c chars)
                    (lstrip_if (fun c => char_in c chars) s)) as H1.
      rewrite H in H1.
      assert (H2 : (String.length (lstrip_if (fun c => char_in c chars) s)
                    <= String.length s)%nat).
      { clear. induction s as [|d r IH]; simpl; [lia|].
        destruct (char_in d chars); simpl; lia. }
      lia. }
    split; [exact Hl|]. rewrite Hl in H. exact H.
  - intros [Hl Hr]. rewrite Hl. exact Hr.
Qed.

Lemma head_not_iff_lstrip p s : head_not p s = true <-> lstrip_if p s = s.
Proof.
  split; [apply lstrip_if_fixed|].
  intros H. rewrite <- H. apply head_not_lstrip_if.
Qed.

Lemma canonical_iff s :
  canonical s <->
  all_chars valid_char s = true /\ no_run "_" s = true /\ strip ". _" s = s.
Proof.
  rewrite strip_fixed. fold strip_set. rewrite <- head_not_iff_lstrip. split.
  - intros [H1 H2 H3 H4]. auto.
  - intros (H1 & H2 & H3 & H4). split; assumption.
Qed.

(** X1: whatever the input and [max_length], the sanitizer's output
    has no doubled underscore and neither starts nor ends with a dot, a
    space or an underscore (so it is never [.] or [..]). *)
Theorem X1_sanitize_filename_edges (name : string) (max_length : Z) :
  let out := sanitize_filename name max_length in
  no_run "_" out = true
  /\ strip ". _" out = out
  /\ (forall c rest, out = String c rest -> char_in c ". _" = false)
  /\ (forall front c, out = front +:+ String c EmptyString -> char_in c ". _" = false)
  /\ out <> "." /\ out <> "..".
Proof.
  intros out. pose proof (sanitize_filename_canonical name max_length) as Hc.
  fold out in Hc. destruct (proj1 (canonical_iff out) Hc) as (_ & Hruns & Hstrip).
  destruct Hc as [_ _ Hhead Hlast].
  assert (Hfirst : forall c rest, out = String c rest -> char_in c ". _" = false).
  { intros c rest Heq. rewrite Heq in Hhead. simpl in Hhead.
    apply negb_true_iff in Hhead. exact Hhead. }
  split; [exact Hruns|]. split; [exact Hstrip|].
  split; [exact Hfirst|]. split.
  - intros front c Heq. rewrite Heq in Hlast. apply rstrip_if_last in Hlast. exact Hlast.
  - split; intros Heq; specialize (Hfirst _ _ Heq); discriminate.
Qed.

(** X2: for [max_length >= 7] the strings the sanitizer returns unchanged
    are exactly the non-empty strings of at most [max_length] characters
    that hold no invalid character and no doubled underscore and have
    nothing to strip at either end. *)
Theorem X2_sanitize_filename_fixed_points (s : string) (max_length : Z) :
  7 <= max_length ->
  (sanitize_filename s max_length = s <->
   s <> EmptyString /\ len s <= max_length
   /\ all_chars valid_char s = true /\ no_run "_" s = true /\ strip ". _" s = s).
Proof.
  intros Hm. split.
  - intros Hfix.
    destruct (sanitize_filename_cases s max_length) as [Hu | (Hc & Ht & Hl)]; [lia| |].
    + rewrite Hfix in Hu. subst s. split; [discriminate|].
      split; [unfold len; simpl; lia|]. apply canonical_iff, canonical_unnamed.
    + rewrite Hfix in *. split; [apply truthy_true, Ht|]. split; [exact Hl|].
      apply canonical_iff, Hc.
  - intros (Hne & Hl & Hrest). apply sanitize_filename_fixed.
    + apply canonical_iff, Hrest.
    + apply truthy_true, Hne.
    + exact Hl.
Qed.

Lemma X2_sanitize_filename_fixed_points_witness :
  sanitize_filename "2024-05-17_Ann Lee_Hi" 100 = "2024-05-17_Ann Lee_Hi".
Proof.
  apply (X2_sanitize_filename_fixed_points "2024-05-17_Ann Lee_Hi" 100); [lia|].
  split; [discriminate|]. split; [vm_compute; discriminate|]. repeat split.
Defined.

(** ** Empty sender names *)

Lemma rstrip_if_nonempty p s :
  head_not p s = true -> s <> EmptyString -> rstrip_if p s <> EmptyString.
Proof.
  destruct s as [|c r]; [congruence|]. simpl. intros Hc _.
  destruct (rstrip_if p r); [|discriminate].
  destruct (p c); [discriminate | discriminate].
Qed.

Lemma lstrip_if_empty p s : lstrip_if p s = EmptyString <-> all_chars p s = true.
Proof.
  induction s as [|c r IH]; simpl; [tauto|].
  destruct (p c); simpl; [exact IH | split; discriminate].
Qed.

Lemma strip_ws_empty s : strip_ws s = EmptyString <-> all_chars isspace s = true.
Proof.
  unfold strip_ws. rewrite <- lstrip_if_empty. split.
  - intros H. destruct (lstrip_if isspace s) as [|c r] eqn:Hl; [reflexivity|].
    exfalso. revert H. apply rstrip_if_nonempty; [|discriminate].
    rewrite <- Hl. apply head_not_lstrip_if.
  - intros ->. reflexivity.
Qed.

Lemma strip_ws_name_nonempty s name :
  display_form (strip_ws s) name -> strip_ws name <> EmptyString.
Proof.
  intros (addr & Hs & Hne & _).
  assert (Hhead : head_not isspace (strip_ws s) = true).
  { unfold strip_ws. apply head_not_rstrip_if, head_not_lstrip_if. }
  rewrite Hs in Hhead. destruct name as [|c r]; [congruence|].
  rewrite str_app_cons in Hhead. simpl in Hhead.
  unfold strip_ws. rewrite lstrip_if_fixed by exact Hhead.
  apply rstrip_if_nonempty; [exact Hhead | discriminate].
Qed.

Lemma all_space_no_char c s :
  isspace c = false -> all_chars isspace s = true -> char_in c s = false.
Proof.
  intros Hc. induction s as [|d r IH]; [reflexivity|].
  cbn [all_chars char_in]. intros [Hd Hr]%andb_prop. rewrite (IH Hr), orb_false_r.
  destruct (Ascii.eqb_spec c d) as [<- |]; [congruence | reflexivity].
Qed.

Lemma no_lt_no_match s :
  char_in "<" s = false -> re_match_display_name (strip_ws s) = None.
Proof.
  intros Hlt. destruct (re_match_display_name (strip_ws s)) as [name|] eqn:Hm; [|reflexivity].
  apply re_match_display_name_stripped, display_form_has_lt in Hm.
  rewrite (char_in_strip_ws _ _ Hlt) in Hm. discriminate.
Qed.

Lemma split_first_empty sep s :
  split_first sep s = EmptyString <-> s = EmptyString \/ starts_with_char sep s = true.
Proof.
  unfold split_first. destruct s as [|c r]; simpl; [tauto|].
  destruct (Ascii.eqb c sep); simpl; split; auto; try discriminate.
  intros [H|H]; discriminate.
Qed.

(** X3: the extracted sender name is empty exactly when the sender is a
    non-empty string of white space only, or starts with [@] and has no
    [<]; the placeholder ["unknown"] is not used in these cases. *)
Theorem X3_extract_sender_name_empty (s : string) :
  extract_sender_name (Some s) = EmptyString <->
  s <> EmptyString
  /\ (all_chars isspace s = true
      \/ (starts_with_char "@" s = true /\ char_in "<" s = false)).
Proof.
  unfold extract_sender_name. split.
  - destruct (truthy s) eqn:Hs; simpl; [|discriminate].
    apply truthy_true in Hs. intros H. split; [exact Hs|].
    destruct (re_match_display_name (strip_ws s)) as [name|] eqn:Hm.
    + apply re_match_display_name_stripped, strip_ws_name_nonempty in Hm. contradiction.
    + destruct (char_in "@" s && negb (char_in "<" s)) eqn:Hc.
      * apply andb_prop in Hc as [_ Hlt%negb_true_iff].
        apply split_first_empty in H as [H|H]; [contradiction | auto].
      * left. apply strip_ws_empty, H.
  - intros (Hs & H). apply truthy_true in Hs. rewrite Hs. simpl.
    destruct H as [Hsp | [Hat Hlt]].
    + rewrite (proj2 (strip_ws_empty s) Hsp). simpl.
      rewrite (all_space_no_char "@" s eq_refl Hsp). reflexivity.
    + rewrite (no_lt_no_match s Hlt), Hlt.
      assert (Hin : char_in "@" s = true).
      { destruct s as [|c r]; [discriminate|]. cbn [starts_with_char char_in] in *.
        rewrite Ascii.eqb_sym, Hat. reflexivity. }
      rewrite Hin. simpl. apply split_first_empty. auto.
Qed.

(** ** Dates *)

(** X4: for a time stamp that is present the date formatter never raises;
    it returns the placeholder pair or the two texts that [strftime] gave
    for one and the same time value, never a mixture.  For an absent time
    stamp the clock is formatted outside any [try]. *)
Theorem X4_format_email_date (E : Env) (received_time : time_value) :
  match received_time with
  | TimeNone => format_email_date E received_time = format_pair (now E)
  | _ =>
      exists p, format_email_date E received_time = Ok p
        /\ (p = ("unknown-date", "Unknown")
            \/ exists t,
                 (received_time = TimeObject t
                  \/ exists text, received_time = TimeOther (Ok text)
                                  /\ fromisoformat E text = Ok t)
                 /\ strftime t "%Y-%m-%d" = Ok p.1
                 /\ strftime t "%Y-%m-%d %H:%M:%S" = Ok p.2)
  end.
Proof.
  assert (Hpair : forall t,
    (exists e, format_pair t = Exc e)
    \/ exists p, format_pair t = Ok p
         /\ strftime t "%Y-%m-%d" = Ok p.1 /\ strftime t "%Y-%m-%d %H:%M:%S" = Ok p.2).
  { intros t. unfold format_pair.
    destruct (strftime t "%Y-%m-%d") as [d|e]; simpl; [|eauto].
    destruct (strftime t "%Y-%m-%d %H:%M:%S") as [dt|e]; simpl; [|eauto].
    right. exists (d, dt). auto. }
  destruct received_time as [|t|[text|e]]; simpl; [reflexivity| | |].
  - destruct (Hpair t) as [[e ->] | (p & -> & H1 & H2)]; simpl; eauto 10.
  - destruct (fromisoformat E text) as [t|e] eqn:Hiso; simpl; [|eauto].
    destruct (Hpair t) as [[e ->] | (p & -> & H1 & H2)]; simpl; eauto 12.
  - eauto.
Qed.

(** ** Recipients *)

Lemma format_recipient_readable slot n a :
  recipient_readable slot = Some (n, a) ->
  format_recipient slot = Ok (recipient_text n a).
Proof.
  unfold recipient_readable, format_recipient, recipient_text.
  destruct slot as [r|]; [|discriminate]. simpl.
  destruct (Name r) as [n'|]; [|discriminate].
  destruct (Address r) as [a'|]; [|discriminate]. intros [= -> ->]. simpl.
  destruct n as [s|]; simpl; [destruct (truthy s) eqn:Hs; simpl|];
    destruct (truthy (or_else a EmptyString) && _); reflexivity.
Qed.

Lemma format_recipient_unreadable slot :
  recipient_readable slot = None -> exists e, format_recipient slot = Exc e.
Proof.
  unfold recipient_readable, format_recipient.
  destruct slot as [r|e]; [|eauto]. simpl.
  destruct (Name r) as [n|e]; simpl; [|eauto].
  destruct (Address r) as [a|e]; [discriminate|]. intros _.
  destruct n as [s|]; simpl; [destruct (truthy s); simpl|]; eauto.
Qed.

(** X5: recipients are formatted all or nothing.  When every recipient can
    be read, the result joins their texts with a comma and a space, a
    recipient being [Name <Address>] when it has an address that differs
    from its name (the address standing in for a missing name) and its name
    alone otherwise; when the collection or any single recipient cannot be
    read, the result is the empty string. *)
Theorem X5_format_recipients (slots : list (result Recipient)) :
  format_recipients None = EmptyString
  /\ (forall e, format_recipients (Some (Exc e)) = EmptyString)
  /\ (forall texts,
        Forall2 (fun slot na => recipient_readable slot = Some na) slots texts ->
        format_recipients (Some (Ok slots))
        = join ", " (map (fun na => recipient_text na.1 na.2) texts))
  /\ (Exists (fun slot => recipient_readable slot = None) slots ->
      format_recipients (Some (Ok slots)) = EmptyString)
  /\ (forall a, recipient_text None (Some a) = or_else (Some a) "Unknown").
Proof.
  split; [reflexivity|]. split; [reflexivity|]. split; [|split].
  - intros texts H. unfold format_recipients. simpl.
    assert (Hl : format_recipient_list slots
                 = Ok (map (fun na => recipient_text na.1 na.2) texts)).
    { induction H as [|slot [n a] slots texts Hr _ IH]; [reflexivity|].
      simpl. rewrite (format_recipient_readable _ _ _ Hr). simpl. rewrite IH. reflexivity. }
    rewrite Hl. reflexivity.
  - intros H. unfold format_recipients. simpl.
    assert (Hl : exists e, format_recipient_list slots = Exc e).
    { induction H as [slot slots Hr | slot slots _ [e IH]]; simpl.
      - destruct (format_recipient_unreadable _ Hr) as [e ->]. simpl. eauto.
      - destruct (format_recipient slot); simpl; [rewrite IH; simpl|]; eauto. }
    destruct Hl as [e ->]. reflexivity.
  - intros a. unfold recipient_text, or_else.
    destruct (truthy a) eqn:Ha; [|reflexivity].
    rewrite Ha, String.eqb_refl. reflexivity.
Qed.

Lemma X5_format_recipients_witness :
  format_recipients
    (Some (Ok [Ok {| Name := Ok (Some "Ann"); Address := Ok (Some "ann@x.org") |};
               Ok {| Name := Ok None; Address := Ok (Some "bob@x.org") |}]))
  = "Ann <ann@x.org>, bob@x.org"
  /\ format_recipients
       (Some (Ok [Ok {| Name := Ok (Some "Ann"); Address := Ok (Some "ann@x.org") |};
                  Exc "recipient unavailable"]))
     = EmptyString.
Proof.
  split.
  - destruct (X5_format_recipients
                [Ok {| Name := Ok (Some "Ann"); Address := Ok (Some "ann@x.org") |};
                 Ok {| Name := Ok None; Address := Ok (Some "bob@x.org") |}])
      as (_ & _ & H & _).
    apply (H [(Some "Ann", Some "ann@x.org"); (None, Some "bob@x.org")]).
    repeat constructor.
  - destruct (X5_format_recipients
                [Ok {| Name := Ok (Some "Ann"); Address := Ok (Some "ann@x.org") |};
                 Exc "recipient unavailable"])
      as (_ & _ & _ & H & _).
    apply H. right. left. reflexivity.
Defined.

(** ** The renderer's guarded reads *)

(** X6: a failure of a guarded read does not show in the result: the item
    renders as the item whose CC, HTML body or plain body reads as absent
    where the read raised, whose HTML body reads as absent where its
    conversion raised, and whose attachment collection is empty where it
    could not be read. *)
Theorem X6_guarded_reads_degrade (E : Env) (mail_item : MailItem) :
  create_email_markdown E (degraded E mail_item) = create_email_markdown E mail_item.
Proof.
  unfold create_email_markdown. f_equal. unfold render, degraded. simpl.
  destruct (Subject mail_item); simpl; [|reflexivity].
  destruct (SenderName mail_item); simpl; [|reflexivity].
  match goal with |- bind ?s _ = _ => destruct s end; simpl; [|reflexivity].
  destruct (ReceivedTime mail_item); simpl; [|reflexivity].
  destruct (Recipients mail_item); simpl; [|reflexivity].
  destruct (format_email_date E _); simpl; [|reflexivity].
  assert (Hcc : best_effort EmptyString
                  (let* cc := absent_if_raised (CC mail_item) in Ok (or_else cc EmptyString))
                = best_effort EmptyString
                    (let* cc := CC mail_item in Ok (or_else cc EmptyString))).
  { destruct (CC mail_item); reflexivity. }
  assert (Hatt : extract_attachments
                   match Attachments mail_item with
                   | Ok (Ok slots) => Ok (Ok slots)
                   | _ => Ok (Ok [])
                   end
                 = ((extract_attachments (Attachments mail_item)).1,
                    match Attachments mail_item with
                    | Ok (Ok _) => (extract_attachments (Attachments mail_item)).2
                    | _ => Ok tt
                    end)).
  { destruct (Attachments mail_item) as [[slots|]|]; simpl; try reflexivity.
    destruct (attachment_loop 1 slots _); reflexivity. }
  rewrite Hcc, Hatt. cbn [fst].
  assert (Hbody :
    html_to_markdown E
      (best_effort EmptyString
         (let* h := match HTMLBody mail_item with
                    | Ok (Some html) => if is_ok (md E html) then Ok (Some html) else Ok None
                    | Ok None => Ok None
                    | Exc _ => Ok None
                    end in Ok (or_else h EmptyString)))
      (best_effort EmptyString
         (let* b := absent_if_raised (Body mail_item) in Ok (or_else b EmptyString)))
    = html_to_markdown E
        (best_effort EmptyString (let* h := HTMLBody mail_item in Ok (or_else h EmptyString)))
        (best_effort EmptyString (let* b := Body mail_item in Ok (or_else b EmptyString)))).
  { assert (Hb : best_effort EmptyString
                   (let* b := absent_if_raised (Body mail_item) in Ok (or_else b EmptyString))
                 = best_effort EmptyString
                     (let* b := Body mail_item in Ok (or_else b EmptyString))).
    { destruct (Body mail_item); reflexivity. }
    rewrite Hb. destruct (HTMLBody mail_item) as [[html|]|]; simpl; try reflexivity.
    unfold html_to_markdown, or_else.
    destruct (truthy html) eqn:Ht; destruct (md E html) as [text|] eqn:Hmd; simpl;
      rewrite ?Ht, ?Hmd; reflexivity. }
  rewrite Hbody. reflexivity.
Qed.

(** ** The names and the document the renderer returns *)

Lemma sanitize_filename_component_safe x :
  component_safe (sanitize_filename x default_max_length).
Proof.
  pose proof (sanitize_filename_canonical x default_max_length) as Hc.
  apply canonical_iff in Hc as (Hv & _ & Hs).
  split; [|split; [|split; assumption]].
  - pose proof (sanitize_filename_truthy x default_max_length) as Ht.
    apply truthy_true, Ht.
  - destruct (sanitize_filename_cases x default_max_length) as [-> | (_ & _ & Hl)];
      [unfold default_max_length; lia | unfold len; simpl; lia | exact Hl].
Qed.

Lemma valid_chars_exclude c n :
  invalid_chars c = true -> all_chars valid_char n = true -> char_in c n = false.
Proof.
  intros Hc. induction n as [|d r IH]; [reflexivity|].
  cbn [all_chars char_in]. intros [Hd Hr]%andb_prop. rewrite (IH Hr), orb_false_r.
  destruct (Ascii.eqb_spec c d) as [<- |]; [|reflexivity].
  unfold valid_char in Hd. rewrite Hc in Hd. discriminate.
Qed.

Lemma component_safe_separators n :
  component_safe n ->
  char_in "/" n = false /\ char_in "\" n = false /\ n <> "." /\ n <> "..".
Proof.
  intros (_ & _ & Hv & Hs).
  split; [apply valid_chars_exclude; [reflexivity | exact Hv]|].
  split; [apply valid_chars_exclude; [reflexivity | exact Hv]|].
  split; intros ->; discriminate.
Qed.

Lemma attachment_step_agree i slot acc :
  lists_agree acc -> lists_agree (attachment_step i slot acc).1.
Proof.
  intros [Hs Hl]. unfold attachment_step.
  destruct slot as [att|]; [|split; assumption].
  destruct (FileName att) as [fn|]; [|split; assumption].
  destruct (SaveAsFile_read att) as [data|]; [|split; assumption].
  split; simpl.
  - apply Forall_app. split; [exact Hs|]. constructor; [|constructor].
    apply sanitize_filename_component_safe.
  - rewrite Hl, map_app. reflexivity.
Qed.

Lemma attachment_loop_agree slots : forall i acc,
  lists_agree acc -> lists_agree (attachment_loop i slots acc).1.
Proof.
  induction slots as [|slot slots IH]; intros i acc Hacc; [exact Hacc|].
  simpl. pose proof (attachment_step_agree i slot acc Hacc) as Hstep.
  destruct (attachment_step i slot acc) as [acc' [[]|e]]; simpl in *; auto.
Qed.

Lemma extract_attachments_agree atts : lists_agree (extract_attachments atts).1.
Proof.
  assert (Hempty : lists_agree {| attachments := []; attachment_links := [] |})
    by (split; [constructor | reflexivity]).
  unfold extract_attachments. destruct atts as [[slots|]|]; try exact Hempty.
  apply attachment_loop_agree, Hempty.
Qed.

(** X7: every name the renderer returns, the base name and each
    attachment name, is non-empty, at most 100 characters long, free of the
    invalid characters (so of both path separators) and has nothing to
    strip at either end (so it is neither [.] nor [..]). *)
Theorem X7_rendered_names_are_components (E : Env) (mail_item : MailItem) :
  match create_email_markdown E mail_item with
  | Ok (filename_base, _, atts) =>
      component_safe filename_base
      /\ Forall (fun a =>
                   component_safe a.1
                   /\ char_in "/" a.1 = false /\ char_in "\" a.1 = false
                   /\ a.1 <> "." /\ a.1 <> "..") atts
  | Exc _ => False
  end.
Proof.
  unfold create_email_markdown, try_except.
  destruct (render E mail_item) as [[[base doc] atts]|e] eqn:Hr.
  - pose proof (render_Ok _ _ _ Hr) as [_ Hatts]. simpl in Hatts. subst atts.
    split.
    + revert Hr. unfold render. intros H.
      apply bind_Ok in H as (subj & _ & H).
      apply bind_Ok in H as (sn & _ & H).
      apply bind_Ok in H as (sender & _ & H).
      apply bind_Ok in H as (rt & _ & H).
      apply bind_Ok in H as (recips & _ & H).
      apply bind_Ok in H as (dates & _ & H).
      cbv zeta in H. injection H as <- _. apply sanitize_filename_component_safe.
    + destruct (extract_attachments_agree (Attachments mail_item)) as [Hs _].
      eapply Forall_impl; [exact Hs|]. intros a Ha. split; [exact Ha|].
      apply component_safe_separators, Ha.
  - split; [|constructor]. repeat split; try reflexivity; [discriminate | vm_compute; discriminate].
Qed.

Lemma guarded_text_spec r :
  best_effort EmptyString (let* x := r in Ok (or_else x EmptyString)) = guarded_text r.
Proof.
  destruct r as [[s|]|]; try reflexivity.
  unfold best_effort, bind, or_else, guarded_text. simpl.
  destruct s; reflexivity.
Qed.
(** X8: a document rendered without failure is the header with the
    subject (or "No Subject"), the sender (the sender name, or else the
    sender address, or else "Unknown"), the formatted recipients, the CC
    text and the display date; then the section "Attachments" with one
    link line per returned attachment, in order, present exactly when an
    attachment is returned; then the section "Content" with the HTML body
    converted, or else the plain body. *)
Theorem X8_document_lists_attachments (E : Env) (mail_item : MailItem) :
  match render E mail_item with
  | Ok (_, md_content, atts) =>
      exists subj sender received recipients dates,
        Subject mail_item = Ok subj
        /\ ((SenderName mail_item = Ok (Some sender) /\ truthy sender = true)
            \/ exists sn a,
                 SenderName mail_item = Ok sn
                 /\ or_else sn EmptyString = EmptyString
                 /\ SenderEmailAddress mail_item = Ok a
                 /\ sender = or_else a "Unknown")
        /\ ReceivedTime mail_item = Ok received
        /\ Recipients mail_item = Ok recipients
        /\ format_email_date E received = Ok dates
        /\ md_content
           = header (or_else subj "No Subject") sender (format_recipients recipients)
                    (guarded_text (CC mail_item)) dates.2
             +:+ attachments_section atts
             +:+ "## Content" +:+ nl +:+ nl
             +:+ html_to_markdown E (guarded_text (HTMLBody mail_item))
                                    (guarded_text (Body mail_item))
  | Exc _ => True
  end.
Proof.
  destruct (render E mail_item) as [[[base doc] atts]|e] eqn:Hr; [|exact I].
  revert Hr. unfold render. intros H.
  apply bind_Ok in H as (subj & Hsubj & H).
  apply bind_Ok in H as (sn & Hsn & H).
  apply bind_Ok in H as (sender & Hsender & H).
  apply bind_Ok in H as (rt & Hrt & H).
  apply bind_Ok in H as (recips & Hrecips & H).
  apply bind_Ok in H as (dates & Hdates & H).
  cbv zeta in H. injection H as _ <- <-.
  destruct (extract_attachments_agree (Attachments mail_item)) as [_ Hl].
  exists subj, sender, rt, recips, dates.
  split; [exact Hsubj|]. split.
  { destruct sn as [s|].
    - destruct (truthy s) eqn:Ht.
      + injection Hsender as <-. left. split; [exact Hsn | exact Ht].
      + apply bind_Ok in Hsender as (a & Ha & [= <-]). right. exists (Some s), a.
        split; [exact Hsn|]. split; [|split; [exact Ha | reflexivity]].
        unfold or_else. rewrite Ht. reflexivity.
    - apply bind_Ok in Hsender as (a & Ha & [= <-]). right. exists None, a.
      split; [exact Hsn|]. split; [reflexivity|]. split; [exact Ha | reflexivity]. }
  split; [exact Hrt|]. split; [exact Hrecips|]. split; [exact Hdates|].
  rewrite !guarded_text_spec, Hl. unfold attachments_section.
  destruct (attachments (extract_attachments (Attachments mail_item)).1) as [|a l];
    simpl map; cbv iota.
  - rewrite str_app_nil_l. rewrite !str_app_assoc. reflexivity.
  - rewrite !str_app_assoc. reflexivity.
Qed.

(** ** The folder walk: counts and progress *)

Lemma process_folder_unfold E items folders output_dir w :
  process_folder E (mkFolder items folders) output_dir w
  = let '(processed, handled, w2) := process_items E output_dir items w in
    match handled with
    | Exc e => (Exc e, w2)
    | Ok _ =>
        match folders with
        | Exc _ => (Ok processed, w2)
        | Ok subs => process_subfolders E output_dir subs processed w2
        end
    end.
Proof.
  unfold process_items. cbn [process_folder].
  destruct items as [slots|e].
  - destruct (items_loop E output_dir slots 0 w) as [[processed [[]|e]] w1].
    + reflexivity.
    + destruct (pbar_write E _ w1) as [[[]|e'] w2]; reflexivity.
  - destruct (pbar_write E _ w) as [[[]|e'] w2]; reflexivity.
Qed.



(** *** What changes the progress bar *)

Lemma write_file_bar E p c w :
  pbar_n (write_file E p c w).2 = pbar_n w.
Proof.
  unfold write_file. destruct (os_refuses E p); [reflexivity|].
  destruct (node_at (fs w) p) as [[]|]; try reflexivity;
    destruct (node_at (fs w) (parent p)) as [[]|]; reflexivity.
Qed.

Lemma mkdir_from_bar E todo : forall done w,
  pbar_n (mkdir_from E done todo w).2 = pbar_n w.
Proof.
  induction todo as [|n todo IH]; intros done w; [reflexivity|].
  simpl. destruct (fs w !! (done </> n)) as [[]|]; try reflexivity; [apply IH|].
  destruct (os_refuses E (done </> n)); [reflexivity|]. rewrite IH. reflexivity.
Qed.

Lemma unique_path_world base_path filename extension w :
  (unique_path base_path filename extension w).2 = w.
Proof.
  destruct (unique_path_spec base_path filename extension w) as (k & -> & _). reflexivity.
Qed.

Lemma bindM_snd {A B} (m : M A) (k : A -> M B) w :
  (bindM m k w).2 = match (m w).1 with
                    | Ok a => (k a (m w).2).2
                    | Exc _ => (m w).2
                    end.
Proof. unfold bindM. destruct (m w) as [[a|e] w']; reflexivity. Qed.

Lemma write_attachments_bar E d atts : forall w,
  pbar_n (write_attachments E d atts w).2 = pbar_n w.
Proof.
  induction atts as [|[n data] atts IH]; intros w; [reflexivity|].
  simpl. rewrite bindM_snd.
  pose proof (write_file_bar E (d </> n) (BinFile data) w) as Hw.
  unfold write_bytes. destruct (write_file E (d </> n) (BinFile data) w) as [[[]|e] w1];
    simpl in *; [rewrite IH|]; exact Hw.
Qed.

Lemma write_email_bar E output_dir r w :
  pbar_n (write_email E output_dir r w).2 = pbar_n w.
Proof.
  destruct r as [[base doc] atts]. unfold write_email. cbn [fst snd].
  destruct atts as [|a atts].
  - rewrite bindM_snd.
    destruct (unique_path_spec output_dir base ".md" w) as (k & -> & _). simpl.
    apply write_file_bar.
  - rewrite bindM_snd.
    destruct (unique_path_spec output_dir base EmptyString w) as (k & -> & _). simpl.
    rewrite bindM_snd. unfold mkdir.
    pose proof (mkdir_from_bar E (candidate output_dir base EmptyString k) [] w) as H1.
    destruct (mkdir_from E [] _ w) as [[[]|e] w1]; cbn [fst snd] in *; [|exact H1].
    rewrite bindM_snd. unfold write_text.
    match goal with |- context [write_file E ?p ?c w1] =>
      pose proof (write_file_bar E p c w1) as H2;
      destruct (write_file E p c w1) as [[[]|e] w2] end; cbn [fst snd] in *; [|congruence].
    etrans; [apply (write_attachments_bar E _ (a :: atts) w2) | congruence].
Qed.

(** one iteration advances the bar by one exactly when the slot is counted
    or its failure is reported *)
Lemma process_item_bar E output_dir slot w :
  pbar_n (process_item E output_dir slot w).2
  = pbar_n w + match (process_item E output_dir slot w).1 with
               | Ok true => 1
               | _ => 0
               end.
Proof.
  unfold process_item, bindM, lift, ret, pbar_update.
  destruct slot as [item|]; [|simpl; lia].
  destruct (Class item) as [cls|]; [|simpl; lia].
  destruct (cls =? 43); [|simpl; lia].
  destruct (create_email_markdown E item) as [r|]; [|simpl; lia].
  pose proof (write_email_bar E output_dir r w) as Hw.
  destruct (write_email E output_dir r w) as [[[]|e] w1]; simpl in *; lia.
Qed.

Lemma item_failed_bar E e w :
  pbar_n (item_failed E e w).2
  = pbar_n w + match (item_failed E e w).1 with Ok _ => 1 | Exc _ => 0 end.
Proof.
  unfold item_failed, bindM, pbar_write, pbar_update.
  destruct (console_rejects E _); simpl; lia.
Qed.







(** *** A console that accepts every message *)

Lemma process_item_passed_over E output_dir slot w :
  match (process_item E output_dir slot w).1 with
  | Ok counted => counted = negb (passed_over slot)
  | Exc _ => passed_over slot = false
  end.
Proof.
  unfold process_item, passed_over, bindM, lift, ret, pbar_update.
  destruct slot as [item|]; [|reflexivity].
  destruct (Class item) as [cls|]; [|reflexivity].
  destruct (cls =? 43); [|reflexivity].
  destruct (create_email_markdown E item) as [r|]; [|reflexivity].
  destruct (write_email E output_dir r w) as [[[]|e] w1]; reflexivity.
Qed.

Lemma items_loop_accepting E output_dir slots :
  (forall msg, console_rejects E msg = None) ->
  forall processed w,
    let r := items_loop E output_dir slots processed w in
    r.1.2 = Ok tt
    /\ pbar_n r.2 = pbar_n w + Z.of_nat (length slots) - count_passed_over slots.
Proof.
  intros Hconsole. induction slots as [|slot slots IH]; intros processed w.
  - simpl. split; [reflexivity | lia].
  - cbn [items_loop count_passed_over].
    pose proof (process_item_bar E output_dir slot w) as Hb.
    pose proof (process_item_passed_over E output_dir slot w) as Hp.
    destruct (process_item E output_dir slot w) as [[counted|e] w1]; cbn [fst snd] in *.
    + specialize (IH (if counted then processed + 1 else processed) w1).
      cbv zeta in *. destruct IH as [IH1 IH2]. split; [exact IH1|].
      rewrite IH2, Hb. subst counted. destruct (passed_over slot); simpl; lia.
    + pose proof (item_failed_bar E e w1) as Hf.
      assert (Hok : exists w2, item_failed E e w1 = (Ok tt, w2)).
      { unfold item_failed, bindM, pbar_write. rewrite Hconsole. simpl. eauto. }
      destruct Hok as [w2 Hw2]. rewrite Hw2 in *. cbn [fst snd] in Hf.
      specialize (IH processed w2). cbv zeta in *. destruct IH as [IH1 IH2].
      split; [exact IH1|]. rewrite IH2, Hf, Hb, Hp. simpl. lia.
Qed.

(** X10: on a console that accepts every message the walk of a folder
    never raises, and the loop over the items of a folder advances the bar
    once for every slot except the readable items that are not mails; these
    are counted in the total but never reported to the bar. *)
Theorem X10_accepting_console (E : Env) (output_dir : Path) :
  (forall msg, console_rejects E msg = None) ->
  (forall folder w, exists n, (process_folder E folder output_dir w).1 = Ok n)
  /\ (forall slots processed w,
        let r := items_loop E output_dir slots processed w in
        r.1.2 = Ok tt
        /\ pbar_n r.2 = pbar_n w + Z.of_nat (length slots) - count_passed_over slots).
Proof.
  intros Hconsole. split; [|intros; apply items_loop_accepting, Hconsole].
  intros folder w. destruct folder as [items folders].
  rewrite process_folder_unfold.
  assert (Hitems : (process_items E output_dir items w).1.2 = Ok tt).
  { unfold process_items. destruct items as [slots|e].
    - destruct (items_loop_accepting E output_dir slots Hconsole 0 w) as [H _].
      cbv zeta in H. destruct (items_loop E output_dir slots 0 w) as [[p esc] w1].
      cbn [fst snd] in H. subst esc. reflexivity.
    - unfold pbar_write. rewrite Hconsole. reflexivity. }
  destruct (process_items E output_dir items w) as [[processed handled] w2].
  cbn [fst snd] in Hitems. subst handled.
  destruct folders as [subs|]; [|cbn [fst]; eauto].
  generalize processed w2. clear.
  induction subs as [|[f|e] subs IH]; intros processed w2; cbn [process_subfolders fst];
    eauto.
  destruct (process_folder E f output_dir w2) as [[n|] w3]; cbn [fst]; eauto.
Qed.

Lemma X10_accepting_console_witness :
  (exists n, (process_folder quiet_env late_failure_folder ["out"] (empty_world out_dir)).1
             = Ok n)
  /\ pbar_n (items_loop quiet_env ["out"]
               [Ok (sample_mail "Hi" []); Exc "item unreadable";
                Ok {| Class := Ok 26; Subject := Ok None; SenderName := Ok None;
                      SenderEmailAddress := Ok None; ReceivedTime := Ok TimeNone;
                      Recipients := Ok None; CC := Ok None; HTMLBody := Ok None;
                      Body := Ok None; Attachments := Ok (Ok []) |}]
               0 (empty_world out_dir)).2
     = 2.
Proof.
  destruct (X10_accepting_console quiet_env ["out"]) as [H1 H2]; [reflexivity|].
  split; [apply H1|].
  match goal with |- pbar_n (items_loop _ _ ?slots _ ?w).2 = _ =>
    destruct (H2 slots 0 w) as [_ ->] end.
  reflexivity.
Defined.

(** ** What the walk does to the file system *)




Lemma parent_ne p : p <> [] -> parent p <> p.
Proof.
  intros Hne H. apply (f_equal length) in H. unfold parent in H.
  destruct (exists_last Hne) as (l & a & ->). rewrite removelast_last, length_app in H.
  simpl in H. lia.
Qed.

Lemma node_at_insert_ne fs p c q :
  p <> q -> node_at (<[p := c]> fs) q = node_at fs q.
Proof.
  intros Hne. destruct q; [reflexivity|]. simpl. apply lookup_insert_ne, Hne.
Qed.

Lemma node_at_nonempty fs p : p <> [] -> node_at fs p = fs !! p.
Proof. destruct p; [congruence | reflexivity]. Qed.

Lemma well_formed_insert fs p c :
  well_formed fs -> p <> [] ->
  node_at fs (parent p) = Some Dir -> fs !! p <> Some Dir ->
  well_formed (<[p := c]> fs).
Proof.
  intros Hwf Hne Hparent Hfile q x Hq. simpl.
  destruct (decide (q = p)) as [-> | Hqp].
  - rewrite node_at_insert_ne by (apply not_eq_sym, parent_ne, Hne). exact Hparent.
  - rewrite lookup_insert_ne in Hq by congruence.
    specialize (Hwf q x Hq). simpl in Hwf.
    rewrite node_at_insert_ne; [exact Hwf|].
    intros Heq. rewrite <- Heq, node_at_nonempty in Hwf by exact Hne. contradiction.
Qed.

Lemma write_file_outcome E p c w :
  well_formed (fs w) ->
  fs (write_file E p c w).2 = fs w
  \/ ((write_file E p c w).1 = Ok tt
      /\ fs (write_file E p c w).2 = <[p := c]> (fs w)
      /\ well_formed (<[p := c]> (fs w))).
Proof.
  intros Hwf. unfold write_file. destruct (os_refuses E p); [left; reflexivity|].
  destruct p as [|a p'] eqn:Hp; [left; reflexivity|]. rewrite <- Hp.
  assert (Hne : p <> []) by (rewrite Hp; discriminate).
  rewrite (node_at_nonempty _ _ Hne).
  assert (Hcase : fs w !! p = Some Dir \/ fs w !! p <> Some Dir).
  { destruct (fs w !! p) as [[]|]; auto; right; discriminate. }
  destruct Hcase as [-> | Hfile]; [left; reflexivity|].
  assert (Hgo : match node_at (fs w) (parent p) with
                | Some Dir => (Ok tt, set_fs w (<[p := c]> (fs w)))
                | Some _ => (Exc "Not a directory", w)
                | None => (Exc "No such file or directory", w)
                end
                = match fs w !! p with
                  | Some Dir => (Exc "Is a directory", w)
                  | _ => match node_at (fs w) (parent p) with
                         | Some Dir => (Ok tt, set_fs w (<[p := c]> (fs w)))
                         | Some _ => (Exc "Not a directory", w)
                         | None => (Exc "No such file or directory", w)
                         end
                  end).
  { destruct (fs w !! p) as [[]|]; try reflexivity. congruence. }
  rewrite <- Hgo. clear Hgo.
  destruct (node_at (fs w) (parent p)) as [[]|] eqn:Hparent; try (left; reflexivity).
  right. split; [reflexivity|]. split; [reflexivity|].
  apply well_formed_insert; assumption.
Qed.

Lemma keeps_insert fs0 fs p c : keeps fs0 fs -> fs0 !! p = None -> keeps fs0 (<[p := c]> fs).
Proof.
  intros Hk Hnone q x Hq. rewrite lookup_insert_ne by congruence. apply Hk, Hq.
Qed.

(** [mkdir(parents=True, exist_ok=True)] keeps what exists and adds only
    directories on the way to its target *)
Lemma mkdir_from_grows E todo : forall done w,
  well_formed (fs w) ->
  node_at (fs w) done = Some Dir ->
  let r := mkdir_from E done todo w in
  well_formed (fs r.2)
  /\ keeps (fs w) (fs r.2)
  /\ (forall p, fs w !! p = None -> is_Some (fs r.2 !! p) ->
        exists pre suf, pre <> [] /\ todo = pre ++ suf /\ p = done ++ pre)
  /\ (r.1 = Ok tt -> node_at (fs r.2) (done ++ todo) = Some Dir).
Proof.
  induction todo as [|n todo IH]; intros done w Hwf Hdone; cbv zeta.
  - simpl. rewrite app_nil_r. split; [exact Hwf|]. split; [intros p x H; exact H|].
    split; [|auto]. intros p Hnone [x Hx]. congruence.
  - cbn [mkdir_from].
    assert (Happ : forall l : Path, done ++ n :: l = (done </> n) ++ l)
      by (intros l; unfold path_join; rewrite <- app_assoc; reflexivity).
    destruct (fs w !! (done </> n)) as [[| |]|] eqn:Hp.
    + specialize (IH (done </> n) w Hwf). cbv zeta in IH.
      rewrite node_at_join in IH. destruct (IH Hp) as (H1 & H2 & H3 & H4).
      split; [exact H1|]. split; [exact H2|]. split.
      * intros p Hnone Hsome. destruct (H3 p Hnone Hsome) as (pre & suf & Hne & -> & ->).
        exists (n :: pre), suf. split; [discriminate|]. split; [reflexivity|].
        symmetry. apply Happ.
      * rewrite Happ. exact H4.
    + simpl. split; [exact Hwf|]. split; [intros p x H; exact H|].
      split; [|discriminate]. intros p Hnone [x Hx]. congruence.
    + simpl. split; [exact Hwf|]. split; [intros p x H; exact H|].
      split; [|discriminate]. intros p Hnone [x Hx]. congruence.
    + destruct (os_refuses E (done </> n)) as [msg|].
      * simpl. split; [exact Hwf|]. split; [intros p x H; exact H|].
        split; [|discriminate]. intros p Hnone [x Hx]. congruence.
      * set (w1 := set_fs w (<[done </> n := Dir]> (fs w))).
        assert (Hwf1 : well_formed (fs w1)).
        { apply well_formed_insert; [exact Hwf | apply join_ne_nil | |].
          - rewrite parent_join. exact Hdone.
          - rewrite Hp. discriminate. }
        specialize (IH (done </> n) w1 Hwf1). cbv zeta in IH.
        rewrite node_at_join in IH.
        destruct IH as (H1 & H2 & H3 & H4); [apply lookup_insert_eq|].
        split; [exact H1|]. split; [|split].
        -- intros p x Hx. apply H2. simpl. rewrite lookup_insert_ne by congruence. exact Hx.
        -- intros p Hnone Hsome.
           destruct (decide (p = done </> n)) as [-> | Hne].
           ++ exists [n], todo. split; [discriminate|]. split; reflexivity.
           ++ destruct (H3 p) as (pre & suf & Hpre & -> & ->).
              ** simpl. rewrite lookup_insert_ne by congruence. exact Hnone.
              ** exact Hsome.
              ** exists (n :: pre), suf. split; [discriminate|]. split; [reflexivity|].
                 symmetry. apply Happ.
        -- rewrite Happ. exact H4.
Qed.

(** below an existing directory of a well-formed file system, creating a
    fresh child adds that child only *)
Lemma mkdir_child_grows E output_dir name w :
  well_formed (fs w) ->
  node_at (fs w) output_dir = Some Dir ->
  fs w !! (output_dir </> name) = None ->
  let r := mkdir E (output_dir </> name) w in
  well_formed (fs r.2)
  /\ keeps (fs w) (fs r.2)
  /\ new_inside (output_dir </> name) (fs w) (fs r.2)
  /\ (r.1 = Ok tt -> fs r.2 !! (output_dir </> name) = Some Dir).
Proof.
  intros Hwf Hout Hfresh. cbv zeta. unfold mkdir.
  destruct (mkdir_from_grows E (output_dir </> name) [] w Hwf eq_refl) as (H1 & H2 & H3 & H4).
  split; [exact H1|]. split; [exact H2|]. split.
  - intros p Hnone Hsome. left.
    destruct (H3 p Hnone Hsome) as (pre & suf & Hpre & Hsplit & ->). simpl.
    destruct suf as [|s suf'] using rev_ind; [rewrite app_nil_r in Hsplit; auto|].
    exfalso. unfold path_join in Hsplit. rewrite app_assoc in Hsplit.
    apply app_inj_tail in Hsplit as [Hout' _].
    assert (Hdir : node_at (fs w) pre = Some Dir).
    { apply (well_formed_prefix _ _ suf' Hwf). rewrite <- Hout'. exact Hout. }
    rewrite node_at_nonempty in Hdir by exact Hpre. simpl in Hnone. congruence.
  - intros Hok. specialize (H4 Hok). simpl in H4.
    rewrite node_at_nonempty in H4 by apply join_ne_nil. exact H4.
Qed.

Section Inside.
Variables (E : Env) (d : Path) (fs0 : gmap Path node).
Hypothesis fresh_children : forall n, fs0 !! (d </> n) = None.

Lemma write_file_inside n c w :
  written_inside d fs0 (fs w) -> written_inside d fs0 (fs (write_file E (d </> n) c w).2).
Proof.
  intros (Hwf & Hk & Hn).
  destruct (write_file_outcome E (d </> n) c w Hwf) as [-> | (_ & -> & Hwf')];
    [split; [|split]; assumption|].
  split; [exact Hwf'|]. split; [apply keeps_insert; [exact Hk | apply fresh_children]|].
  intros p Hnone Hsome. destruct (decide (p = d </> n)) as [-> | Hne]; [eauto|].
  apply Hn; [exact Hnone|]. rewrite lookup_insert_ne in Hsome by congruence. exact Hsome.
Qed.

Lemma write_attachments_inside atts : forall w,
  written_inside d fs0 (fs w) -> written_inside d fs0 (fs (write_attachments E d atts w).2).
Proof.
  induction atts as [|[n data] atts IH]; intros w Hw; [exact Hw|].
  cbn [write_attachments]. rewrite bindM_snd. unfold write_bytes.
  pose proof (write_file_inside n (BinFile data) w Hw) as H1.
  destruct (write_file E (d </> n) (BinFile data) w) as [[[]|e] w1]; cbn [fst snd] in *;
    [apply IH|]; exact H1.
Qed.

End Inside.








Lemma well_formed_archive_world : well_formed (fs archive_world).
Proof.
  intros p x Hx. simpl in Hx. apply lookup_insert_Some in Hx as [[<- _] | [_ Hx]].
  - reflexivity.
  - apply lookup_singleton_Some in Hx as [<- _]. reflexivity.
Qed.

Lemma write_email_inside E output_dir r w :
  well_formed (fs w) ->
  node_at (fs w) output_dir = Some Dir ->
  exists name,
    fs w !! (output_dir </> name) = None
    /\ written_inside (output_dir </> name) (fs w) (fs (write_email E output_dir r w).2).
Proof.
  intros Hwf Hout. destruct r as [[base doc] atts]. unfold write_email. cbn [fst snd].
  destruct atts as [|a atts].
  - rewrite bindM_snd.
    destruct (unique_path_spec output_dir base ".md" w) as (k & -> & Hnone & _).
    destruct (candidate_parent output_dir base ".md" k) as [name Hname].
    rewrite Hname in *. cbn [fst snd]. unfold write_text.
    exists name. split; [exact Hnone|].
    destruct (write_file_outcome E (output_dir </> name) (TextFile doc) w Hwf)
      as [-> | (_ & -> & Hwf')].
    + split; [exact Hwf|]. split; [intros p x H; exact H|].
      intros p Hp [x Hx]. congruence.
    + split; [exact Hwf'|]. split.
      * apply keeps_insert; [intros p x H; exact H | exact Hnone].
      * intros p Hp Hsome. destruct (decide (p = output_dir </> name)) as [-> | Hne].
        -- left. reflexivity.
        -- rewrite lookup_insert_ne in Hsome by congruence. destruct Hsome. congruence.
  - rewrite bindM_snd.
    destruct (unique_path_spec output_dir base EmptyString w) as (k & -> & Hnone & _).
    destruct (candidate_parent output_dir base EmptyString k) as [name Hname].
    rewrite Hname in *. cbn [fst snd]. exists name. split; [exact Hnone|].
    set (d := output_dir </> name) in *.
    assert (Hfresh : forall n, fs w !! (d </> n) = None).
    { intros n. apply well_formed_fresh_child; [exact Hwf | exact Hnone | apply join_ne_nil]. }
    destruct (mkdir_child_grows E output_dir name w Hwf Hout Hnone) as (H1 & H2 & H3 & _).
    fold d in H1, H2, H3.
    rewrite bindM_snd.
    destruct (mkdir E d w) as [[[]|e] w1]; cbn [fst snd] in *;
      [|split; [|split]; assumption].
    rewrite bindM_snd. unfold write_text.
    pose proof (write_file_inside E d (fs w) Hfresh (base +:+ ".md") (TextFile doc) w1
                  (conj H1 (conj H2 H3))) as H4.
    destruct (write_file E (d </> (base +:+ ".md")) (TextFile doc) w1) as [[[]|e] w2];
      cbn [fst snd] in *; [|exact H4].
    apply write_attachments_inside; assumption.
Qed.

(** X11: the writes of one rendered email (lines 246-258), whether they all
    succeed or one of them is refused on the way, leave a well-formed file
    system in which every path that existed is unchanged, and every new
    path is one fresh child of the output root or lies directly in it. *)
Theorem X11_writes_stay_in_fresh_child (E : Env) (output_dir : Path)
    (mail_item : MailItem) (r : RenderedEmail) (w : World) :
  create_email_markdown E mail_item = Ok r ->
  well_formed (fs w) ->
  node_at (fs w) output_dir = Some Dir ->
  let w' := (write_email E output_dir r w).2 in
  well_formed (fs w')
  /\ (forall p x, fs w !! p = Some x -> fs w' !! p = Some x)
  /\ exists name,
       fs w !! (output_dir </> name) = None
       /\ forall p, fs w !! p = None -> is_Some (fs w' !! p) ->
            p = output_dir </> name \/ exists n, p = output_dir </> name </> n.
Proof.
  intros _ Hwf Hout. cbv zeta.
  destruct (write_email_inside E output_dir r w Hwf Hout) as (name & Hnone & H1 & H2 & H3).
  split; [exact H1|]. split; [exact H2|]. exists name. split; [exact Hnone | exact H3].
Qed.

Lemma X11_writes_stay_in_fresh_child_witness :
  let E := sample_env (refuse_path ["data"; "2024-05-17_Ann Lee_Hi"; "b.bin"] "disk full")
                      accept_all (Exc "no mail client") in
  let item := sample_mail "Hi" [Ok (file_attachment "a.txt" [Byte.x41]);
                                Ok (file_attachment "b.bin" [Byte.x42])] in
  match create_email_markdown E item with
  | Ok r =>
      let w' := (write_email E ["data"] r archive_world).2 in
      (write_email E ["data"] r archive_world).1 = Exc "disk full"
      /\ well_formed (fs w')
      /\ fs w' !! ["data"; "mail.pst"] = Some (BinFile [])
      /\ fs w' !! ["data"; "2024-05-17_Ann Lee_Hi"; "a.txt"] = Some (BinFile [Byte.x41])
  | Exc _ => False
  end.
Proof.
  intros E item.
  destruct (create_email_markdown E item) as [r|e] eqn:Hr; [|vm_compute in Hr; discriminate].
  destruct (X11_writes_stay_in_fresh_child E ["data"] item r archive_world Hr
              well_formed_archive_world eq_refl) as (H1 & H2 & _).
  vm_compute in Hr. injection Hr as <-.
  split; [vm_compute; reflexivity|]. split; [exact H1|].
  split; [apply H2; reflexivity | vm_compute; reflexivity].
Defined.

(** ** The archive session *)

Lemma process_pst_file_unfold E pst_path output_dir worker_id w :
  process_pst_file E pst_path output_dir worker_id w
  = if negb (path_exists (fs w) pst_path)
    then (Ok (name_of pst_path, 0, Some ("File not found: " +:+ path_str pst_path)), w)
    else
      (let! _ := mkdir E (default (parent pst_path) output_dir) in
       try_exceptM (session E pst_path (default (parent pst_path) output_dir))
                   (fun e => ret (name_of pst_path, 0, Some e))) w.
Proof. reflexivity. Qed.

(** what the session returns and what it does to the file system *)
Lemma session_outcome E pst_path output_dir w :
  (match (session E pst_path output_dir w).1 with
   | Ok (name, count, error) => name = name_of pst_path /\ (is_Some error -> count = 0)
   | Exc _ => True
   end)
  /\ (fs (session E pst_path output_dir w).2 = fs w
      \/ exists f w0, fs w0 = fs w
           /\ fs (session E pst_path output_dir w).2
              = fs (process_folder E f output_dir w0).2).
Proof.
  unfold session, bindM, lift, ret.
  destruct (Dispatch_GetNamespace E) as [ns|]; [|split; [exact I | left; reflexivity]].
  destruct (AddStore ns pst_path) as [[slots|]|];
    try (split; [exact I | left; reflexivity]).
  destruct (find_store pst_path slots) as [found|]; [|split; [exact I | left; reflexivity]].
  assert (Hcase : forall pst_folder : option Folder,
    let r := match pst_folder with
             | Some f =>
                 let (r, w') := tqdm (count_emails_in_folder f) w in
                 match r with
                 | Ok _ =>
                     let (r0, w'0) := process_folder E f output_dir w' in
                     match r0 with
                     | Ok a => (Ok (name_of pst_path, a, None), w'0)
                     | Exc e => (Exc e, w'0)
                     end
                 | Exc e => (Exc e, w')
                 end
             | None =>
                 (Ok (name_of pst_path, 0, Some "Could not locate PST folder in Outlook"), w)
             end in
    (match r.1 with
     | Ok (name, count, error) => name = name_of pst_path /\ (is_Some error -> count = 0)
     | Exc _ => True
     end)
    /\ (fs r.2 = fs w
        \/ exists f w0, fs w0 = fs w /\ fs r.2 = fs (process_folder E f output_dir w0).2)).
  { intros [f|]; cbv zeta; [|split; [split; reflexivity | left; reflexivity]].
    unfold tqdm.
    set (w0 := {| fs := fs w; pbar_total := count_emails_in_folder f; pbar_n := 0;
                  console := console w |}).
    destruct (process_folder E f output_dir w0) as [[a|] w3] eqn:Hpf; cbn [fst snd];
      (split; [first [exact I | split; [reflexivity | intros [? [=]]]]
              | right; exists f, w0; split; [reflexivity | rewrite Hpf; reflexivity]]). }
  destruct found as [f|].
  - apply (Hcase (Some f)).
  - destruct (last_folder slots) as [pst_folder|]; [|split; [exact I | left; reflexivity]].
    destruct pst_folder as [f|]; [apply (Hcase (Some f)) | apply (Hcase None)].
Qed.

(** the name and the count of a result *)
Lemma process_pst_file_result (E : Env) (pst_path : Path) (output_dir : option Path)
    (worker_id : Z) (w : World) :
  match (process_pst_file E pst_path output_dir worker_id w).1 with
  | Ok (name, count, error) => name = name_of pst_path /\ (is_Some error -> count = 0)
  | Exc _ => True
  end.
Proof.
  rewrite process_pst_file_unfold.
  destruct (path_exists (fs w) pst_path); simpl negb; cbv iota; [|split; reflexivity].
  unfold bindM.
  destruct (mkdir E (default (parent pst_path) output_dir) w) as [[[]|e] w1];
    cbn [fst snd]; [|exact I].
  unfold try_exceptM, ret.
  destruct (session_outcome E pst_path (default (parent pst_path) output_dir) w1)
    as [Hres _].
  destruct (session E pst_path (default (parent pst_path) output_dir) w1)
    as [[[[name cnt] err]|e] w2]; cbn [fst snd] in *; [exact Hres | split; reflexivity].
Qed.



(** ** Locating the root folder *)

(** X14: [find_store] returns the root of the first top-level folder whose
    store path is the archive, provided every folder before it can be read
    (an unreadable store path counts as no match); and when it finds none,
    the fallback finds none either exactly when the session has no
    top-level folder at all, and otherwise takes the last one. *)
Theorem X14_root_folder_selection (pst_path : Path) (slots : list (result TopFolder)) :
  (forall before folder after,
      slots = map Ok before ++ Ok folder :: after ->
      Forall (fun b => Store_FilePath b <> Ok pst_path) before ->
      Store_FilePath folder = Ok pst_path ->
      find_store pst_path slots = Ok (Some (root_folder folder)))
  /\ (find_store pst_path slots = Ok None ->
      exists folders, slots = map Ok folders
        /\ Forall (fun b => Store_FilePath b <> Ok pst_path) folders)
  /\ (last_folder slots = Ok None <-> slots = [])
  /\ (forall front folder,
        slots = front ++ [Ok folder] -> last_folder slots = Ok (Some (root_folder folder))).
Proof.
  split; [|split; [|split]].
  - intros before folder after -> Hbefore Hmatch.
    induction Hbefore as [|b before Hb _ IH]; simpl.
    + rewrite Hmatch, bool_decide_eq_true_2 by reflexivity. reflexivity.
    + destruct (Store_FilePath b) as [sp|]; [|exact IH].
      rewrite bool_decide_eq_false_2 by congruence. exact IH.
  - induction slots as [|[b|e] slots IH]; simpl.
    + intros _. exists []. split; [reflexivity | constructor].
    + destruct (Store_FilePath b) as [sp|] eqn:Hsp.
      * destruct (bool_decide (sp = pst_path)) eqn:Hd; [discriminate|].
        apply bool_decide_eq_false in Hd.
        intros (folders & -> & Hf)%IH. exists (b :: folders).
        split; [reflexivity|]. constructor; [congruence | exact Hf].
      * intros (folders & -> & Hf)%IH. exists (b :: folders).
        split; [reflexivity|]. constructor; [congruence | exact Hf].
    + discriminate.
  - unfold last_folder. split; [|intros ->; reflexivity].
    destruct slots as [|s slots] using rev_ind; [reflexivity|].
    rewrite map_app. simpl. rewrite last_last. destruct s; discriminate.
  - intros front folder ->. unfold last_folder.
    rewrite map_app. simpl. rewrite last_last. reflexivity.
Qed.

Lemma X14_root_folder_selection_witness :
  let first := {| Store_FilePath := Exc "no store"; root_folder := mkFolder (Ok []) (Ok []) |} in
  let second := {| Store_FilePath := Ok ["data"; "mail.pst"];
                   root_folder := late_failure_folder |} in
  find_store ["data"; "mail.pst"] [Ok first; Ok second; Exc "unreadable"]
  = Ok (Some late_failure_folder).
Proof.
  intros first second.
  destruct (X14_root_folder_selection ["data"; "mail.pst"]
              [Ok first; Ok second; Exc "unreadable"]) as [H _].
  apply (H [first] second [Exc "unreadable"]).
  - reflexivity.
  - repeat constructor. discriminate.
  - reflexivity.
Defined.

(** ** The executor and the sequential run *)

(** X15: for a non-empty input, a worker count of 0 or less makes the pool
    constructor raise; a count of 1 or more gives the sequential run exactly
    when one worker is asked for or one archive is given, and otherwise a
    pool of at least two workers, never more than asked for and never more
    than there are archives. *)
Theorem X15_choose_executor (workers : Z) (pst_files : list Path) :
  pst_files <> [] ->
  (workers <= 0 ->
   choose_executor workers pst_files = Exc "max_workers must be greater than 0")
  /\ (1 <= workers ->
      (choose_executor workers pst_files = Ok Sequential
       <-> workers = 1 \/ length pst_files = 1%nat)
      /\ forall n, choose_executor workers pst_files = Ok (ThreadPool n) ->
           2 <= n /\ n <= workers /\ n <= Z.of_nat (length pst_files)).
Proof.
  intros Hne.
  assert (Hlen : 1 <= Z.of_nat (length pst_files)).
  { destruct pst_files; [congruence | simpl; lia]. }
  unfold choose_executor, ThreadPoolExecutor, num_workers. split.
  - intros Hw. destruct (Z.eqb_spec (Z.min workers (Z.of_nat (length pst_files))) 1); [lia|].
    destruct (Z.leb_spec (Z.min workers (Z.of_nat (length pst_files))) 0); [reflexivity | lia].
  - intros Hw. destruct (Z.eqb_spec (Z.min workers (Z.of_nat (length pst_files))) 1) as [H1|H1].
    + split; [split; [lia | reflexivity]|]. discriminate.
    + destruct (Z.leb_spec (Z.min workers (Z.of_nat (length pst_files))) 0); [lia|].
      split; [split; [discriminate | lia]|]. intros n [= <-]. lia.
Qed.

Lemma X15_choose_executor_witness :
  choose_executor 8 [["a.pst"]; ["b.pst"]; ["c.pst"]] = Ok (ThreadPool 3)
  /\ (choose_executor 8 [["a.pst"]] = Ok Sequential).
Proof.
  split; [reflexivity|].
  apply (X15_choose_executor 8 [["a.pst"]]); [discriminate | lia | right; reflexivity].
Defined.

(** X16: a sequential run that does not raise returns one result for each
    input archive, in input order, each carrying the file name of its
    archive. *)
Theorem X16_run_sequential_order (E : Env) (pst_files : list Path)
    (output_dir : option Path) (w : World) :
  match (run_sequential E pst_files output_dir w).1 with
  | Ok results => map (fun r : ArchiveResult => r.1.1) results = map name_of pst_files
  | Exc _ => True
  end.
Proof.
  revert w. induction pst_files as [|pst_path rest IH]; intros w; [reflexivity|].
  cbn [run_sequential]. unfold bindM at 1.
  pose proof (process_pst_file_result E pst_path output_dir 0 w) as Hname.
  destruct (process_pst_file E pst_path output_dir 0 w) as [[[[name cnt] err]|e] w1];
    cbn [fst snd] in *; [|exact I].
  unfold bindM, ret. specialize (IH w1).
  destruct (run_sequential E rest output_dir w1) as [[results|e] w2]; cbn [fst snd] in *;
    [|exact I].
  simpl. destruct Hname as [-> _]. rewrite IH. reflexivity.
Qed.

(** ** A walk in which nothing fails *)


Section NothingRefused.
Variable E : Env.
Hypothesis os_accepts : forall p, os_refuses E p = None.






End NothingRefused.




(** ** The summary *)

Lemma total_processed_from (results : list ArchiveResult) : forall total,
  Forall (fun r : ArchiveResult => is_Some r.2 -> r.1.2 = 0) results ->
  fold_left
    (fun total (r : ArchiveResult) =>
       if match r.2 with Some error => truthy error | None => false end
       then total
       else total + r.1.2)
    results total
  = total + foldr Z.add 0 (map (fun r : ArchiveResult => r.1.2) results).
Proof.
  induction results as [|r results IH]; intros total Hall; simpl; [lia|].
  inversion Hall as [|? ? Hr Hrest]; subst. rewrite IH by exact Hrest.
  destruct r as [[name count] [error|]]; cbn [fst snd] in *; [|lia].
  rewrite (Hr (ex_intro _ error eq_refl)). destruct (truthy error); lia.
Qed.

Lemma run_sequential_counts E pst_files output_dir : forall w,
  match (run_sequential E pst_files output_dir w).1 with
  | Ok results => Forall (fun r : ArchiveResult => is_Some r.2 -> r.1.2 = 0) results
  | Exc _ => True
  end.
Proof.
  induction pst_files as [|pst_path rest IH]; intros w; [constructor|].
  cbn [run_sequential]. unfold bindM at 1.
  pose proof (process_pst_file_result E pst_path output_dir 0 w) as Hres.
  destruct (process_pst_file E pst_path output_dir 0 w) as [[[[name cnt] err]|e] w1];
    cbn [fst snd] in *; [|exact I].
  unfold bindM, ret. specialize (IH w1).
  destruct (run_sequential E rest output_dir w1) as [[results|e] w2]; cbn [fst snd] in *;
    [|exact I].
  constructor; [apply Hres | exact IH].
Qed.

(** X18: the total of the summary is the sum of the counts of all the
    results of a sequential run: a result with an error carries the count
    0, so it adds nothing whether the summary takes it for a failure or,
    its error message being empty, for a success. *)
Theorem X18_summary_total (E : Env) (pst_files : list Path) (output_dir : option Path)
    (w : World) :
  match (run_sequential E pst_files output_dir w).1 with
  | Ok results =>
      total_processed results = foldr Z.add 0 (map (fun r : ArchiveResult => r.1.2) results)
  | Exc _ => True
  end.
Proof.
  pose proof (run_sequential_counts E pst_files output_dir w) as H.
  destruct (run_sequential E pst_files output_dir w) as [[results|e] w1]; cbn [fst snd] in *;
    [|exact I].
  unfold total_processed. rewrite total_processed_from by exact H. lia.
Qed.

Example summary_of_two_archives :
  let r := run_sequential late_failure_env [["data"; "mail.pst"]; ["data"; "gone.pst"]] None
             archive_world in
  r.1 = Ok [("mail.pst", 0, Some "console closed");
            ("gone.pst", 0, Some "File not found: /data/gone.pst")]
  /\ total_processed [("mail.pst", 0, Some "console closed");
                      ("gone.pst", 0, Some "File not found: /data/gone.pst")] = 0.
Proof. vm_compute. split; reflexivity. Qed.
